(** * RoadHero dashboard: route construction and ticket synchronisation

    A shallow embedding of the logic of [src/components/RealtimeMap.tsx]
    (both revisions of [RouteLine] and [RealtimeMap], and [TicketsPanel])
    and of the [DashboardPage] controller, followed by the properties the
    specification states about them.

    Conventions of the embedding.
    - A JavaScript [number] that is a coordinate or a distance is an IEEE-754
      binary64 value: Rocq's primitive [float].  [Math.sqrt] is [sqrt] and
      [Math.pow(x, 2)] is [x * x].
    - [severity_score] is a number decoded from JSON, hence a finite double;
      the only thing the code does with two scores is to take the sign of
      their difference, which for finite doubles is the sign of the exact
      difference.  Scores are therefore rationals ([Q]).
    - [created_at] is the timestamp string written by the ticket store;
      [new Date(s).getTime()] is a parameter [getTime] into epoch
      milliseconds ([Z]).
    - Objects with identity (Leaflet layers, timers) carry a fresh number.
    - Leaflet calls themselves are taken to succeed. *)

From Stdlib Require Import String ZArith QArith Floats Bool Lia List.
From Stdlib Require Import Permutation Sorted Lqa.
Import ListNotations.
Close Scope Q_scope.
Close Scope float_scope.

Set Implicit Arguments.
Set Warnings "-inexact-float".

(* ================================================================== *)
(** ** Data model *)
(* ================================================================== *)

Inductive Severity := LOW | MEDIUM | HIGH.

Inductive Status := ACTIVE | COMPLETE.

(** The union of the three structural views of a pothole record that the
    source declares (the panel's view also lists an [id] that no code
    reads). *)
Record Pothole := mkPothole {
  latitude : float;
  longitude : float;
  severity : Severity;
  image_url : option string;
  description : option string;
  severity_score : option Q
}.

Record Ticket := mkTicket {
  id : string;
  status : Status;
  created_at : string;
  pothole_metadata : Pothole
}.

Definition Status_eqb (a b : Status) : bool :=
  match a, b with
  | ACTIVE, ACTIVE | COMPLETE, COMPLETE => true
  | _, _ => false
  end.

(** A coordinate pair as the code builds it: [[c0, c1]]. *)
Definition Coord : Type := (float * float)%type.

(* ================================================================== *)
(** ** Array primitives *)
(* ================================================================== *)

(** [Array.prototype.sort(compare)].  ECMAScript requires the sort to be
    stable, and for a consistent comparator the stable sorted permutation
    is unique; it is computed here by insertion from the right.  The
    argument [positive a b] tells whether [compare(a, b) > 0]. *)
Section ArraySort.
Variable A : Type.
Variable positive : A -> A -> bool.

Fixpoint insert (x : A) (l : list A) : list A :=
  match l with
  | [] => [x]
  | y :: r => if positive x y then y :: insert x r else x :: l
  end.

Definition Array_sort (l : list A) : list A := fold_right insert [] l.
End ArraySort.

(** [Array.prototype.forEach((x, idx) => ...)] over a closure state [St]. *)
Fixpoint forEach (A St : Type) (f : St -> A -> nat -> St) (l : list A)
    (idx : nat) (s : St) : St :=
  match l with
  | [] => s
  | x :: r => forEach f r (S idx) (f s x idx)
  end.

(** [arr.splice(i, 1)]: the removed elements and what is left of [arr]. *)
Definition splice1 (A : Type) (l : list A) (i : nat) : list A * list A :=
  (firstn 1 (skipn i l), firstn i l ++ skipn (S i) l).

(* ================================================================== *)
(** ** GeometryOrderer: the nearest-neighbour block of [RouteLine] *)
(* ================================================================== *)

(** [Math.sqrt(Math.pow(coord[0] - last[0], 2) + Math.pow(coord[1] - last[1], 2))] *)
Definition dist (coord last : Coord) : float :=
  PrimFloat.sqrt (PrimFloat.add
    (PrimFloat.mul (PrimFloat.sub (fst coord) (fst last))
                   (PrimFloat.sub (fst coord) (fst last)))
    (PrimFloat.mul (PrimFloat.sub (snd coord) (snd last))
                   (PrimFloat.sub (snd coord) (snd last)))).

(** The closure state of the [forEach] callback: [(nearestIdx, minDist)]. *)
Definition nearer (last : Coord) (s : nat * float) (coord : Coord) (idx : nat)
    : nat * float :=
  if PrimFloat.ltb (dist coord last) (snd s) then (idx, dist coord last) else s.

Definition nearestIdx (last : Coord) (unvisited : list Coord) : nat :=
  fst (forEach (nearer last) unvisited 0 (0, infinity)).

(** What a block of JavaScript can come to: a value, a [TypeError] (reading
    an index of [undefined]), or, for the model of a loop, no result within
    the given number of iterations. *)
Inductive Outcome (A : Type) :=
| Value (a : A)
| TypeError
| OutOfFuel.
Arguments TypeError {A}.
Arguments OutOfFuel {A}.

(** The [while (unvisited.length > 0)] loop.  [orderedCoords] is kept as its
    elements before the last one ([done], oldest first) and its last one. *)
Fixpoint nn_loop (fuel : nat) (done : list Coord) (last : Coord)
    (unvisited : list Coord) : Outcome (list Coord) :=
  match unvisited with
  | [] => Value (done ++ [last])
  | _ :: _ =>
    match fuel with
    | 0 => OutOfFuel
    | S fuel' =>
      let (removed, rest) := splice1 unvisited (nearestIdx last unvisited) in
      match removed with
      | [] => TypeError      (* [undefined] is pushed and read next round *)
      | next :: _ => nn_loop fuel' (done ++ [last]) next rest
      end
    end
  end.

(** [const unvisited = [...coords]; const orderedCoords = [unvisited.shift()!];
    while ...].  On an empty [coords] the [undefined] that [shift] returns is
    read when the request string is built. *)
Definition nearestNeighbor (coords : list Coord) : Outcome (list Coord) :=
  match coords with
  | [] => TypeError
  | first :: unvisited => nn_loop (length unvisited) [] first unvisited
  end.

(** The property of the specification, in its own words: starting from
    [last], each next point is one of the unvisited points, none of the
    unvisited points is nearer to [last], and every unvisited point
    enumerated before it is strictly farther. *)
Inductive greedy : Coord -> list Coord -> list Coord -> Prop :=
| greedy_done : forall last, greedy last [] []
| greedy_next : forall last before next after route,
    (forall c, In c (before ++ next :: after) ->
               PrimFloat.ltb (dist c last) (dist next last) = false) ->
    (forall c, In c before ->
               PrimFloat.ltb (dist next last) (dist c last) = true) ->
    greedy next (before ++ after) route ->
    greedy last (before ++ next :: after) (next :: route).

(** Every distance the loop can compute is a number (not NaN). *)
Definition distances_are_numbers (coords : list Coord) : bool :=
  forallb (fun p => forallb (fun q => negb (is_nan (dist q p))) coords) coords.

(* ================================================================== *)
(** ** RealtimeMap: the derived list of active tickets *)
(* ================================================================== *)

(** [const severityWeights = { HIGH: 3, MEDIUM: 2, LOW: 1 }] *)
Definition severityWeights (s : Severity) : Z :=
  match s with
  | HIGH => 3
  | MEDIUM => 2
  | LOW => 1
  end.

Section ActiveTickets.
(** [new Date(s).getTime()] *)
Variable getTime : string -> Z.

(** The comparator of [activeTickets]: [severityDiff || (time b - time a)]. *)
Definition compareActive (a b : Ticket) : Z :=
  let severityDiff :=
    (severityWeights (severity (pothole_metadata b)) -
     severityWeights (severity (pothole_metadata a)))%Z in
  if (severityDiff =? 0)%Z
  then (getTime (created_at b) - getTime (created_at a))%Z
  else severityDiff.

(** [[...tickets].filter((t) => t.status === "ACTIVE").sort(...)] *)
Definition activeTickets (tickets : list Ticket) : list Ticket :=
  Array_sort (fun a b => (0 <? compareActive a b)%Z)
             (filter (fun t => Status_eqb (status t) ACTIVE) tickets).
End ActiveTickets.

(* ================================================================== *)
(** ** TicketsPanel: the displayed order *)
(* ================================================================== *)

(** [t.pothole_metadata.severity_score ?? 0] *)
Definition score (t : Ticket) : Q :=
  match severity_score (pothole_metadata t) with
  | Some s => s
  | None => 0%Q
  end.

(** The comparator of the panel: [score b - score a]. *)
Definition compareScore (a b : Ticket) : Q := (score b - score a)%Q.

(** A number is greater than zero. *)
Definition Qpositive (q : Q) : bool := negb (Qle_bool q 0%Q).

(** [const sorted = [...tickets].sort(...)] *)
Definition sorted (tickets : list Ticket) : list Ticket :=
  Array_sort (fun a b => Qpositive (compareScore a b)) tickets.

(* ================================================================== *)
(** ** DashboardPage: the canonical ticket list *)
(* ================================================================== *)

(** Requests sent to the ticket store. *)
Inductive RemoteCall :=
| SelectTickets
| UpdateTicket (id' : string) (status' : Status).

(** The [{ data, error }] a store request resolves to. *)
Record QueryResult := mkResult {
  data : option (list Ticket);
  error : option string
}.

(** The [tickets] state of the page, with the requests issued so far
    (oldest first). *)
Record Dashboard := mkDashboard {
  tickets : list Ticket;
  calls : list RemoteCall
}.

Definition setTickets (f : list Ticket -> list Ticket) (d : Dashboard)
    : Dashboard :=
  mkDashboard (f (tickets d)) (calls d).

Definition request (c : RemoteCall) (d : Dashboard) : Dashboard :=
  mkDashboard (tickets d) (calls d ++ [c]).

(** [fetchTickets]; [res] is what the store answers to the query. *)
Definition fetchTickets (res : QueryResult) (d : Dashboard) : Dashboard :=
  let d := request SelectTickets d in
  match error res with
  | Some _ => d
  | None =>
    match data res with
    | Some rows => setTickets (fun _ => rows) d
    | None => d
    end
  end.

Inductive EventType := INSERT | UPDATE | DELETE.

(** A change-feed payload; [old_id] is [payload.old.id]. *)
Record Payload := mkPayload {
  eventType : EventType;
  old_id : option string
}.

(** [t.id !== payload.old.id] *)
Definition differs (s : string) (o : option string) : bool :=
  match o with
  | Some s' => negb (String.eqb s s')
  | None => true
  end.

(** The [postgres_changes] callback; [res] is what the store would answer
    to a re-fetch. *)
Definition onChangeEvent (payload : Payload) (res : QueryResult)
    (d : Dashboard) : Dashboard :=
  match eventType payload with
  | INSERT | UPDATE => fetchTickets res d
  | DELETE =>
    setTickets (filter (fun t => differs (id t) (old_id payload))) d
  end.

Definition withStatus (t : Ticket) (s : Status) : Ticket :=
  mkTicket (id t) s (created_at t) (pothole_metadata t).

(** [handleUpdate] of the page. *)
Definition handleUpdate (id' : string) (status' : Status) (d : Dashboard)
    : Dashboard :=
  setTickets
    (map (fun t => if String.eqb (id t) id' then withStatus t status' else t))
    d.

(** [updateStatus] of the panel; [err] is the [error] of the store's answer
    to the update, [onUpdate] the optional callback property. *)
Definition updateStatus
    (onUpdate : option (string -> Status -> Dashboard -> Dashboard))
    (id' : string) (newStatus : Status) (err : option string)
    (d : Dashboard) : Dashboard :=
  let d := request (UpdateTicket id' newStatus) d in
  match err with
  | None =>
    match onUpdate with
    | Some f => f id' newStatus d
    | None => d
    end
  | Some _ => d
  end.

(* ================================================================== *)
(** ** RouteLine: the state it works on *)
(* ================================================================== *)

(** The options object of [L.polyline]. *)
Record PolylineOptions := mkOptions {
  color : string;
  weight : float;
  dashArray : option string;
  opacity : float
}.

(** The two kinds of layer the component puts on the map. *)
Inductive LayerKind :=
| Polyline (latlngs : list Coord) (options : PolylineOptions)
| Decorator (line : nat) (arrowColor : string).

(** A Leaflet layer is an object: it has an identity. *)
Record Layer := mkLayer {
  leaflet_id : nat;
  kind : LayerKind
}.

(** The routing service's JSON body.  [coordinates] is [None] when
    [route.geometry.coordinates] is not there to be mapped over. *)
Record OsrmRoute := mkRoute {
  coordinates : option (list Coord)
}.

Record OsrmData := mkData {
  code : string;
  routes : option (list OsrmRoute);
  message : option string
}.

(** How [await fetch(url)] followed by [await response.json()] ends. *)
Inductive FetchOutcome :=
| Rejected                       (* network error or unparsable body *)
| Resolved (body : OsrmData).

(** Everything the effect of [RouteLine] reads or writes: the layers of the
    Leaflet map, the three refs, the [isCalculatingRoutes] state behind
    [onLoadingChange], the pending timers and the requests sent to the
    routing service (oldest first; a request is the ordered coordinate list
    its URL carries). *)
Record World := mkWorld {
  map_layers : list Layer;
  routePolylineRef : option Layer;
  decoratorRef : option Layer;
  isCalculatingRef : bool;
  isCalculatingRoutes : bool;
  next_id : nat;
  timers : list nat;
  fetches : list (list Coord)
}.

Definition initial : World := mkWorld [] None None false false 0 [] [].

(** How a block of statements completes. *)
Inductive Completion (A : Type) :=
| Normal (a : A)
| Thrown
| Returned.
Arguments Thrown {A}.
Arguments Returned {A}.

(** A block of statements: a state transformer with a completion. *)
Definition Eff (A : Type) : Type := World -> Completion A * World.

Definition ret (A : Type) (a : A) : Eff A := fun w => (Normal a, w).

Definition bind (A B : Type) (c : Eff A) (k : A -> Eff B) : Eff B :=
  fun w =>
    match c w with
    | (Normal a, w') => k a w'
    | (Thrown, w') => (Thrown, w')
    | (Returned, w') => (Returned, w')
    end.

Definition throw (A : Type) : Eff A := fun w => (Thrown, w).
Arguments throw {A}.

Definition return_ (A : Type) : Eff A := fun w => (Returned, w).
Arguments return_ {A}.

(** [try { body } catch { handler }] *)
Definition try_catch (A : Type) (body handler : Eff A) : Eff A :=
  fun w =>
    match body w with
    | (Thrown, w') => handler w'
    | r => r
    end.

Definition gets (A : Type) (f : World -> A) : Eff A := fun w => (Normal (f w), w).

Definition modify (f : World -> World) : Eff unit := fun w => (Normal tt, f w).

Definition exec (A : Type) (c : Eff A) (w : World) : World := snd (c w).

Declare Scope eff_scope.
Delimit Scope eff_scope with eff.
Notation "x <- c1 ;; c2" := (bind c1 (fun x => c2))
  (at level 61, c1 at next level, right associativity) : eff_scope.
Notation "c1 ;; c2" := (bind c1 (fun _ => c2))
  (at level 61, right associativity) : eff_scope.
Open Scope eff_scope.

(** *** The map and the refs *)

Definition set_routePolylineRef (v : option Layer) : Eff unit :=
  modify (fun w => mkWorld (map_layers w) v (decoratorRef w)
    (isCalculatingRef w) (isCalculatingRoutes w) (next_id w) (timers w)
    (fetches w)).

Definition set_decoratorRef (v : option Layer) : Eff unit :=
  modify (fun w => mkWorld (map_layers w) (routePolylineRef w) v
    (isCalculatingRef w) (isCalculatingRoutes w) (next_id w) (timers w)
    (fetches w)).

Definition set_isCalculatingRef (v : bool) : Eff unit :=
  modify (fun w => mkWorld (map_layers w) (routePolylineRef w)
    (decoratorRef w) v (isCalculatingRoutes w) (next_id w) (timers w)
    (fetches w)).

Definition onLoadingChange (loading : bool) : Eff unit :=
  modify (fun w => mkWorld (map_layers w) (routePolylineRef w)
    (decoratorRef w) (isCalculatingRef w) loading (next_id w) (timers w)
    (fetches w)).

Definition same_layer (a b : Layer) : bool :=
  Nat.eqb (leaflet_id a) (leaflet_id b).

Definition hasLayer (l : Layer) (w : World) : bool :=
  existsb (same_layer l) (map_layers w).

(** [map.removeLayer(l)] *)
Definition removeLayer (l : Layer) : Eff unit :=
  modify (fun w => mkWorld
    (filter (fun x => negb (same_layer l x)) (map_layers w))
    (routePolylineRef w) (decoratorRef w) (isCalculatingRef w)
    (isCalculatingRoutes w) (next_id w) (timers w) (fetches w)).

(** [new ...(...).addTo(map)]: a fresh layer object, put on the map. *)
Definition addTo_map (k : LayerKind) : Eff Layer :=
  fun w =>
    let l := mkLayer (next_id w) k in
    (Normal l, mkWorld (map_layers w ++ [l]) (routePolylineRef w)
      (decoratorRef w) (isCalculatingRef w) (isCalculatingRoutes w)
      (S (next_id w)) (timers w) (fetches w)).

(** [setTimeout(stopLoading, 15000)]: the timer's id. *)
Definition setTimeout : Eff nat :=
  fun w =>
    (Normal (next_id w), mkWorld (map_layers w) (routePolylineRef w)
      (decoratorRef w) (isCalculatingRef w) (isCalculatingRoutes w)
      (S (next_id w)) (timers w ++ [next_id w]) (fetches w)).

Definition clearTimeout (timeoutId : nat) : Eff unit :=
  modify (fun w => mkWorld (map_layers w) (routePolylineRef w)
    (decoratorRef w) (isCalculatingRef w) (isCalculatingRoutes w)
    (next_id w) (filter (fun t => negb (Nat.eqb t timeoutId)) (timers w))
    (fetches w)).

(** [fetch(url)]: the request is sent; its number is its place in
    [fetches]. *)
Definition fetch (points : list Coord) : Eff nat :=
  fun w =>
    (Normal (length (fetches w)), mkWorld (map_layers w)
      (routePolylineRef w) (decoratorRef w) (isCalculatingRef w)
      (isCalculatingRoutes w) (next_id w) (timers w)
      (fetches w ++ [points])).

(** *** What both revisions share *)

(** [stopLoading] *)
Definition stopLoading : Eff unit :=
  set_isCalculatingRef false ;; onLoadingChange false.

(** [[c[1], c[0]]] *)
Definition swap (c : Coord) : Coord := (snd c, fst c).

(** [color: optimizeRoute ? "#10b981" : "#2563eb"] *)
Definition routeColor (optimizeRoute : bool) : string :=
  if optimizeRoute then "#10b981"%string else "#2563eb"%string.

Definition routeOptions (optimizeRoute : bool) : PolylineOptions :=
  mkOptions (routeColor optimizeRoute) 5%float None 0.75%float.

Definition fallbackOptions : PolylineOptions :=
  mkOptions "#4b5563"%string 4%float (Some "6 8"%string) 0.7%float.

(** [data.routes?.[0]] *)
Definition firstRoute (body : OsrmData) : option OsrmRoute :=
  match routes body with
  | Some (r :: _) => Some r
  | _ => None
  end.

(** [tickets.map((t) => [t.pothole_metadata.longitude, t.pothole_metadata.latitude])] *)
Definition coordsOf (tickets : list Ticket) : list Coord :=
  map (fun t => (longitude (pothole_metadata t),
                 latitude (pothole_metadata t))) tickets.

(** The constants of one run of the effect that its callbacks close over. *)
Record Run := mkRun {
  coords : list Coord;
  optimizeRoute : bool;
  timeoutId : nat
}.

(** The body of the [try] up to [await fetch(url)]: it gives the number of
    the request it sent. *)
Definition request_route (r : Run) : Eff nat :=
  if optimizeRoute r then
    match nearestNeighbor (coords r) with
    | Value orderedCoords => fetch orderedCoords
    | _ => throw
    end
  else fetch (coords r).

(** Drawing the route of the service: the polyline, the arrows (the
    decorator plug-in is imported, so [PolylineDecorator] is there), and the
    viewport fitted to the route (which leaves this state as it is). *)
Definition draw_route (r : Run) (lonlats : list Coord) : Eff unit :=
  let routeCoords := map swap lonlats in
  p <- addTo_map (Polyline routeCoords (routeOptions (optimizeRoute r))) ;;
  set_routePolylineRef (Some p) ;;
  d <- addTo_map (Decorator (leaflet_id p) (routeColor (optimizeRoute r))) ;;
  set_decoratorRef (Some d) ;;
  stopLoading.

(** The straight lines of the [catch] block. *)
Definition draw_fallback (r : Run) : Eff unit :=
  let fallbackCoords := map swap (coords r) in
  p <- addTo_map (Polyline fallbackCoords fallbackOptions) ;;
  set_routePolylineRef (Some p) ;;
  stopLoading.

(** Calling an [async] function: whatever way its body completes, the caller
    only gets a promise. *)
Definition async (A : Type) (body : Eff (option A)) : Eff (option A) :=
  fun w =>
    match body w with
    | (Normal a, w') => (Normal a, w')
    | (_, w') => (Normal None, w')
    end.

(** The response handling inside the [try], after the two [await]s.  The
    revisions differ in what they do first once the response is accepted:
    that is [guard]. *)
Definition on_response (guard : Eff unit) (r : Run) (o : FetchOutcome)
    : Eff unit :=
  match o with
  | Rejected => throw
  | Resolved body =>
    match (if String.eqb (code body) "Ok" then firstRoute body else None) with
    | Some route =>
      guard ;;
      match coordinates route with
      | Some lonlats => draw_route r lonlats
      | None => throw      (* TypeError on [route.geometry.coordinates.map] *)
      end
    | None => throw        (* [throw new Error(...)] *)
    end
  end.

(* ================================================================== *)
(** ** RouteLine, first revision *)
(* ================================================================== *)

Module RouteLine1.

(** [clearRoute]: each removal sits in its own [try {} catch {}], so an
    empty ref changes nothing. *)
Definition clearRoute : Eff unit :=
  p <- gets routePolylineRef ;;
  match p with
  | Some l => removeLayer l
  | None => ret tt
  end ;;
  set_routePolylineRef None ;;
  d <- gets decoratorRef ;;
  match d with
  | Some l => removeLayer l
  | None => ret tt
  end ;;
  set_decoratorRef None.

(** [cleanup] *)
Definition cleanup (r : Run) : Eff unit := stopLoading ;; clearRoute.

(** The [catch] block. *)
Definition catch_block (r : Run) : Eff unit := draw_fallback r.

(** [fetchOptimalRoute()] up to its first [await]: the number of the
    request it waits for, if it waits. *)
Definition fetchOptimalRoute_start (r : Run) : Eff (option nat) :=
  async (try_catch
    (clearRoute ;; n <- request_route r ;; ret (Some n))
    (catch_block r ;; ret None)).

(** [fetchOptimalRoute()] from the point where the response is there. *)
Definition fetchOptimalRoute_resume (r : Run) (o : FetchOutcome) : Eff unit :=
  try_catch (on_response (ret tt) r o) (catch_block r).

(** The body of [useEffect]: the cleanup it returns (as the run whose
    constants the cleanup closes over) and the request it waits for. *)
Definition effect (tickets : list Ticket) (optimizeRoute : bool)
    : Eff (option Run * option nat) :=
  clearRoute ;;
  if length tickets <? 2 then
    stopLoading ;; ret (None, None)
  else
    calculating <- gets isCalculatingRef ;;
    if calculating : bool then ret (None, None)
    else
      set_isCalculatingRef true ;;
      onLoadingChange true ;;
      timeoutId <- setTimeout ;;
      let r := mkRun (coordsOf tickets) optimizeRoute timeoutId in
      sent <- fetchOptimalRoute_start r ;;
      match sent with
      | Some _ => ret tt
      | None => clearTimeout timeoutId     (* [.finally], already settled *)
      end ;;
      ret (Some r, sent).

End RouteLine1.

(* ================================================================== *)
(** ** RouteLine, second revision *)
(* ================================================================== *)

Module RouteLine2.

(** [clearRouteLayers] *)
Definition clearRouteLayers : Eff unit :=
  p <- gets routePolylineRef ;;
  match p with
  | Some l =>
    present <- gets (hasLayer l) ;;
    if present : bool then removeLayer l else ret tt
  | None => ret tt
  end ;;
  set_routePolylineRef None ;;
  d <- gets decoratorRef ;;
  match d with
  | Some l =>
    present <- gets (hasLayer l) ;;
    if present : bool then removeLayer l else ret tt
  | None => ret tt
  end ;;
  set_decoratorRef None.

(** The function the effect returns. *)
Definition cleanup (r : Run) : Eff unit :=
  stopLoading ;; clearTimeout (timeoutId r) ;; clearRouteLayers.

(** [if (!isCalculatingRef.current) return;] *)
Definition still_active : Eff unit :=
  live <- gets isCalculatingRef ;;
  if live : bool then ret tt else return_.

(** The [catch] block. *)
Definition catch_block (r : Run) : Eff unit :=
  still_active ;; draw_fallback r.

Definition fetchOptimalRoute_start (r : Run) : Eff (option nat) :=
  async (try_catch
    (n <- request_route r ;; ret (Some n))
    (catch_block r ;; ret None)).

Definition fetchOptimalRoute_resume (r : Run) (o : FetchOutcome) : Eff unit :=
  try_catch (on_response still_active r o) (catch_block r).

Definition effect (tickets : list Ticket) (optimizeRoute : bool)
    : Eff (option Run * option nat) :=
  if length tickets <? 2 then
    clearRouteLayers ;; stopLoading ;; ret (None, None)
  else
    set_isCalculatingRef true ;;
    onLoadingChange true ;;
    timeoutId <- setTimeout ;;
    let r := mkRun (coordsOf tickets) optimizeRoute timeoutId in
    sent <- fetchOptimalRoute_start r ;;
    match sent with
    | Some _ => ret tt
    | None => clearTimeout timeoutId
    end ;;
    ret (Some r, sent).

End RouteLine2.

(* ================================================================== *)
(** ** The component in time *)
(* ================================================================== *)

(** What a revision of [RouteLine] consists of. *)
Record Revision := mkRevision {
  rev_effect : list Ticket -> bool -> Eff (option Run * option nat);
  rev_cleanup : Run -> Eff unit;
  rev_resume : Run -> FetchOutcome -> Eff unit
}.

Definition revision1 : Revision :=
  mkRevision RouteLine1.effect RouteLine1.cleanup
             RouteLine1.fetchOptimalRoute_resume.

Definition revision2 : Revision :=
  mkRevision RouteLine2.effect RouteLine2.cleanup
             RouteLine2.fetchOptimalRoute_resume.

(** A mounted [RouteLine]: its world, the cleanup the last effect returned,
    and the calculations that wait for a response, by request number. *)
Record Component := mkComponent {
  world : World;
  cleanupFn : option Run;
  awaiting : list (nat * Run)
}.

Definition mounted : Component := mkComponent initial None [].

(** What can happen to it.  [Render] is a render with changed dependencies:
    the previous cleanup runs, then the effect. *)
Inductive Event :=
| Render (tickets : list Ticket) (optimizeRoute : bool)
| Settle (request : nat) (o : FetchOutcome)
| TimerFires (timeoutId : nat)
| Unmount.

Definition run_cleanup (rev : Revision) (c : Component) : World :=
  match cleanupFn c with
  | Some r => exec (rev_cleanup rev r) (world c)
  | None => world c
  end.

Definition lookup_run (request : nat) (l : list (nat * Run)) : option Run :=
  match find (fun e => Nat.eqb (fst e) request) l with
  | Some e => Some (snd e)
  | None => None
  end.

Definition step (rev : Revision) (c : Component) (e : Event) : Component :=
  match e with
  | Render tickets optimizeRoute =>
    let w := run_cleanup rev c in
    match rev_effect rev tickets optimizeRoute w with
    | (Normal (cl, Some n), w') =>
      mkComponent w' cl
        (awaiting c ++ match cl with Some r => [(n, r)] | None => [] end)
    | (Normal (cl, None), w') => mkComponent w' cl (awaiting c)
    | (_, w') => mkComponent w' None (awaiting c)
    end
  | Settle request o =>
    match lookup_run request (awaiting c) with
    | Some r =>
      let w := exec (rev_resume rev r o) (world c) in
      mkComponent (exec (clearTimeout (timeoutId r)) w)    (* [.finally] *)
        (cleanupFn c)
        (filter (fun e => negb (Nat.eqb (fst e) request)) (awaiting c))
    | None => c
    end
  | TimerFires t =>
    if existsb (Nat.eqb t) (timers (world c)) then
      mkComponent
        (exec (clearTimeout t ;; stopLoading) (world c))
        (cleanupFn c) (awaiting c)
    else c
  | Unmount => mkComponent (run_cleanup rev c) None (awaiting c)
  end.

Definition run (rev : Revision) (events : list Event) : Component :=
  fold_left (step rev) events mounted.

(** The route polylines that are on the map. *)
Definition is_polyline (l : Layer) : bool :=
  match kind l with
  | Polyline _ _ => true
  | Decorator _ _ => false
  end.

Definition route_visuals (w : World) : list Layer :=
  filter is_polyline (map_layers w).

Definition points (l : Layer) : list Coord :=
  match kind l with
  | Polyline latlngs _ => latlngs
  | Decorator _ _ => []
  end.

(** The provenance of a polyline is carried by its style: the fallback is
    the one drawn with [fallbackOptions]. *)
Definition is_fallback (l : Layer) : bool :=
  match kind l with
  | Polyline _ o => String.eqb (color o) (color fallbackOptions)
  | Decorator _ _ => false
  end.

(* ================================================================== *)
(** ** The vocabulary of the specification *)
(* ================================================================== *)

(** HIGH > MEDIUM > LOW *)
Inductive more_severe : Severity -> Severity -> Prop :=
| high_medium : more_severe HIGH MEDIUM
| high_low : more_severe HIGH LOW
| medium_low : more_severe MEDIUM LOW.

Definition Severity_eqb (a b : Severity) : bool :=
  match a, b with
  | LOW, LOW | MEDIUM, MEDIUM | HIGH, HIGH => true
  | _, _ => false
  end.

Section Ranking.
Variable getTime : string -> Z.

(** [a] may stand before [b]: it is more severe, or as severe and not
    older. *)
Definition may_precede (a b : Ticket) : Prop :=
  more_severe (severity (pothole_metadata a)) (severity (pothole_metadata b))
  \/ (severity (pothole_metadata a) = severity (pothole_metadata b)
      /\ (getTime (created_at b) <= getTime (created_at a))%Z).

(** The tickets of one severity and one creation time. *)
Definition of_rank (s : Severity) (time : Z) (t : Ticket) : bool :=
  Severity_eqb (severity (pothole_metadata t)) s
  && (getTime (created_at t) =? time)%Z.
End Ranking.

(** The tickets of one score. *)
Definition of_score (q : Q) (t : Ticket) : bool := Qeq_bool (score t) q.

(** The geometry of a response of the routing service that has code "Ok"
    and a first route with coordinates; any other outcome is a failure of
    the route fetch. *)
Definition route_geometry (o : FetchOutcome) : option (list Coord) :=
  match o with
  | Rejected => None
  | Resolved body =>
    if String.eqb (code body) "Ok" then
      match routes body with
      | Some (r :: _) => coordinates r
      | _ => None
      end
    else None
  end.

(** [l] has [x] somewhere before [y]. *)
Definition before (A : Type) (x y : A) (l : list A) : Prop :=
  exists l1 l2 l3, l = l1 ++ x :: l2 ++ y :: l3.

(** Every layer on the map is held by one of the two refs. *)
Definition held (w : World) : Prop :=
  map_layers w =
    match routePolylineRef w with Some l => [l] | None => [] end ++
    match decoratorRef w with Some l => [l] | None => [] end.

(** What the second revision keeps true of a mounted component: the layers
    on the map are the ones the refs hold; while a calculation is marked as
    running the map carries no route; and when the last effect returned no
    cleanup there is neither a route nor a loading indicator. *)
Definition consistent (c : Component) : Prop :=
  held (world c) /\
  (isCalculatingRef (world c) = true -> map_layers (world c) = []) /\
  (cleanupFn c = None ->
   map_layers (world c) = [] /\ isCalculatingRef (world c) = false /\
   isCalculatingRoutes (world c) = false).

Definition is_render (e : Event) : bool :=
  match e with
  | Render _ _ => true
  | _ => false
  end.

(** *** Sample data *)

Definition stop (name : string) (lon lat : float) : Ticket :=
  mkTicket name ACTIVE "2025-01-01T00:00:00Z"
    (mkPothole lat lon HIGH None None None).

Definition stopA : Ticket := stop "a" 0 0.
Definition stopB : Ticket := stop "b" 10 0.
Definition stopC : Ticket := stop "c" 1 0.

Definition ok_response (lonlats : list Coord) : FetchOutcome :=
  Resolved (mkData "Ok" (Some [mkRoute (Some lonlats)]) None).

Definition geometryAB : list Coord := [(0, 0); (5, 1); (10, 0)]%float.
Definition geometryABC : list Coord := [(0, 0); (10, 0); (1, 0)]%float.

(** A world in which a calculation of the second revision is running. *)
Definition live_world : World :=
  world (run revision2 [Render [stopA; stopB] false]).

(** A clock for the examples: the length of the timestamp string. *)
Definition sample_clock (s : string) : Z := Z.of_nat (String.length s).

Definition report (name : string) (st : Status) (created : string)
    (sev : Severity) (sc : option Q) : Ticket :=
  mkTicket name st created (mkPothole 0 0 sev None None sc).

(* ================================================================== *)
(** ** The rest of the page and of the map *)
(* ================================================================== *)

(** The page after a series of loads, each answered by one result, in the
    order in which the answers arrive. *)
Definition refetches (results : list QueryResult) (d : Dashboard) : Dashboard :=
  fold_left (fun d res => fetchTickets res d) results d.

(** The rows of an answer that replaces the list. *)
Definition replacing (res : QueryResult) : option (list Ticket) :=
  match error res with
  | Some _ => None
  | None => data res
  end.

(** The rows of the last answer of [results] that replaces the list. *)
Fixpoint last_replacing (results : list QueryResult) (dflt : list Ticket)
    : list Ticket :=
  match results with
  | [] => dflt
  | res :: rest =>
    last_replacing rest
      (match replacing res with Some rows => rows | None => dflt end)
  end.

Definition has_id (x : string) (t : Ticket) : bool := String.eqb (id t) x.

(** The timers of the second revision: none, or the one of the run whose
    cleanup is kept. *)
Definition pending_timer (c : Component) : Prop :=
  match cleanupFn c with
  | Some r => timers (world c) = [] \/ timers (world c) = [timeoutId r]
  | None => timers (world c) = []
  end.

(** What else the second revision keeps true: the polyline ref holds a
    polyline and the decorator ref a decorator, the loading indicator shows
    what [isCalculatingRef] says, and no timer outlives its run. *)
Definition orderly (c : Component) : Prop :=
  consistent c /\
  (forall l, routePolylineRef (world c) = Some l -> is_polyline l = true) /\
  (forall l, decoratorRef (world c) = Some l -> is_polyline l = false) /\
  isCalculatingRoutes (world c) = isCalculatingRef (world c) /\
  pending_timer c.

(** The events that end a display of routes: a render with fewer than two
    stops, and the unmounting. *)
Definition ends_routes (e : Event) : bool :=
  match e with
  | Render tickets _ => length tickets <? 2
  | Unmount => true
  | _ => false
  end.

(** The coordinate list a calculation asks the routing service for. *)
Definition requested (stops : list Coord) (optimize : bool) : list Coord :=
  if optimize then
    match nearestNeighbor stops with
    | Value orderedCoords => orderedCoords
    | _ => stops
    end
  else stops.

(** The layers of a map once the layer a ref holds, if any, is removed. *)
Definition without (ref : option Layer) (layers : list Layer) : list Layer :=
  match ref with
  | Some l => filter (fun x => negb (same_layer l x)) layers
  | None => layers
  end.

(** The world once the layers of both refs are removed and the refs are
    emptied. *)
Definition cleared (w : World) : World :=
  mkWorld (without (decoratorRef w) (without (routePolylineRef w) (map_layers w)))
    None None (isCalculatingRef w) (isCalculatingRoutes w) (next_id w)
    (timers w) (fetches w).

(** [const severityColors = { HIGH: "red", MEDIUM: "orange", LOW: "green" }] *)
Definition severityColors (s : Severity) : string :=
  match s with
  | HIGH => "red"
  | MEDIUM => "orange"
  | LOW => "green"
  end.

(** A marker of the map: its React key, its position [[lat, lon]], and the
    two things [numberedIcon] puts into the icon, the background colour and
    the number. *)
Record Marker := mkMarker {
  key : string;
  position : Coord;
  icon_color : string;
  icon_number : nat
}.

(** [array.map((x, index) => ...)] *)
Fixpoint map_index (A B : Type) (f : A -> nat -> B) (l : list A) (index : nat)
    : list B :=
  match l with
  | [] => []
  | x :: r => f x index :: map_index f r (S index)
  end.

(** [activeTickets.map((t, index) => <Marker ... />)] *)
Definition markers (activeTickets : list Ticket) : list Marker :=
  map_index
    (fun t index =>
       mkMarker (id t)
         (latitude (pothole_metadata t), longitude (pothole_metadata t))
         (severityColors (severity (pothole_metadata t)))
         (index + 1))
    activeTickets 0.

(** An entry of [mapThemes]. *)
Record Theme := mkTheme {
  name : string;
  url : string;
  attribution : string
}.

Section Themes.
(** The attribution texts of the four themes (HTML fragments). *)
Variables attribution0 attribution1 attribution2 attribution3 : string.

Definition mapThemes : list Theme :=
  [ mkTheme "Default Light"
      "https://{s}.tile.openstreetmap.org/{z}/{x}/{y}.png" attribution0;
    mkTheme "Carto Dark"
      "https://{s}.basemaps.cartocdn.com/dark_all/{z}/{x}/{y}{r}.png"
      attribution1;
    mkTheme "Stadia Dark"
      "https://tiles.stadiamaps.com/tiles/alidade_smooth_dark/{z}/{x}/{y}{r}.png"
      attribution2;
    mkTheme "Labeled Satelite"
      "https://tiles.stadiamaps.com/tiles/alidade_satellite/{z}/{x}/{y}{r}.png"
      attribution3 ].

(** [useState(mapThemes[0])] *)
Definition initialTheme : Theme :=
  nth 0 mapThemes (mkTheme "" "" "").

(** [handleThemeChange], on the value of the select element. *)
Definition handleThemeChange (themeName : string) (currentTheme : Theme)
    : Theme :=
  match find (fun t => String.eqb (name t) themeName) mapThemes with
  | Some newTheme => newTheme
  | None => currentTheme
  end.
End Themes.

(* ================================================================== *)
(** * Properties *)
(* ================================================================== *)

(** ** Order facts on binary64 comparisons *)

Ltac sf_cases :=
  repeat match goal with
  | |- context [Z.compare ?x ?y] => destruct (Z.compare_spec x y)
  | H : context [Z.compare ?x ?y] |- _ => destruct (Z.compare_spec x y)
  | |- context [Pos.compare_cont Eq ?x ?y] =>
      change (Pos.compare_cont Eq x y) with (Pos.compare x y);
      destruct (Pos.compare_spec x y)
  | H : context [Pos.compare_cont Eq ?x ?y] |- _ =>
      change (Pos.compare_cont Eq x y) with (Pos.compare x y) in H;
      destruct (Pos.compare_spec x y)
  end.

Lemma SFltb_trans a b c :
  SFltb a b = true -> SFltb b c = true -> SFltb a c = true.
Proof.
  unfold SFltb, SFcompare.
  destruct a as [[]|[]| |[] ma ea], b as [[]|[]| |[] mb eb],
           c as [[]|[]| |[] mc ec]; simpl; try congruence;
    sf_cases; simpl; try congruence; try lia.
Qed.

Lemma SFltb_irrefl a : SFltb a a = false.
Proof.
  unfold SFltb, SFcompare.
  destruct a as [[]|[]| |[] ma ea]; simpl; try congruence;
    sf_cases; simpl; try congruence; try lia.
Qed.

Lemma SFltb_negtrans a b c :
  SFltb a b = true -> SFeqb c c = true ->
  SFltb a c = true \/ SFltb c b = true.
Proof.
  unfold SFltb, SFeqb, SFcompare.
  destruct a as [[]|[]| |[] ma ea], b as [[]|[]| |[] mb eb],
           c as [[]|[]| |[] mc ec]; simpl; try congruence; auto;
    sf_cases; simpl; try congruence; auto; try lia.
Qed.

Lemma SFltb_top a : SFltb (S754_infinity false) a = false.
Proof. destruct a as [[]|[]| |[] ma ea]; reflexivity. Qed.

Lemma ltb_trans (a b c : float) :
  PrimFloat.ltb a b = true -> PrimFloat.ltb b c = true ->
  PrimFloat.ltb a c = true.
Proof. rewrite !ltb_spec. apply SFltb_trans. Qed.

Lemma ltb_irrefl (a : float) : PrimFloat.ltb a a = false.
Proof. rewrite ltb_spec. apply SFltb_irrefl. Qed.

Lemma ltb_negtrans (a b c : float) :
  PrimFloat.ltb a b = true -> is_nan c = false ->
  PrimFloat.ltb a c = true \/ PrimFloat.ltb c b = true.
Proof.
  unfold is_nan. rewrite !ltb_spec, FloatAxioms.eqb_spec. intros Hab Hc.
  apply SFltb_negtrans; [exact Hab | now destruct (SFeqb _ _)].
Qed.

Lemma ltb_infinity (a : float) : PrimFloat.ltb infinity a = false.
Proof. rewrite ltb_spec. apply SFltb_top. Qed.

(** A number that is not below [infinity] is below nothing. *)
Lemma ltb_not_below_infinity (a b : float) :
  is_nan a = false -> PrimFloat.ltb a infinity = false ->
  PrimFloat.ltb a b = false.
Proof.
  intros Ha Hinf. destruct (PrimFloat.ltb a b) eqn:Hab; [| reflexivity].
  destruct (@ltb_negtrans a b infinity Hab) as [H | H].
  - reflexivity.
  - congruence.
  - rewrite ltb_infinity in H. discriminate.
Qed.

(** ** The nearest-neighbour order *)

Section NearestScan.
Variable last : Coord.
Variable universe : list Coord.
Hypothesis numbers : forall c, In c universe -> is_nan (dist c last) = false.

(** The scan of the unvisited points: what holds of [(nearestIdx, minDist)]
    once the points of [seen] have been looked at. *)
Lemma scan_invariant (rest seen : list Coord) (s : nat * float) :
  incl (seen ++ rest) universe ->
  (forall c, In c seen -> PrimFloat.ltb (dist c last) (snd s) = false) ->
  (s = (0, infinity) \/
   exists before next after,
     seen = before ++ next :: after /\ fst s = length before /\
     snd s = dist next last /\
     forall c, In c before ->
               PrimFloat.ltb (dist next last) (dist c last) = true) ->
  let s' := forEach (nearer last) rest (length seen) s in
  (forall c, In c (seen ++ rest) ->
             PrimFloat.ltb (dist c last) (snd s') = false) /\
  (s' = (0, infinity) \/
   exists before next after,
     seen ++ rest = before ++ next :: after /\ fst s' = length before /\
     snd s' = dist next last /\
     forall c, In c before ->
               PrimFloat.ltb (dist next last) (dist c last) = true).
Proof.
  revert seen s. induction rest as [| x rest IH]; intros seen s Hin Hmin Hidx.
  - simpl. rewrite app_nil_r. split; assumption.
  - simpl.
    assert (Hlen : S (length seen) = length (seen ++ [x]))
      by (rewrite length_app; simpl; lia).
    rewrite Hlen.
    replace (seen ++ x :: rest) with ((seen ++ [x]) ++ rest) in *
      by (rewrite <- app_assoc; reflexivity).
    apply IH; clear IH; [exact Hin | |].
    + intros c Hc. apply in_app_or in Hc. unfold nearer.
      destruct (PrimFloat.ltb (dist x last) (snd s)) eqn:Hx; simpl.
      * destruct Hc as [Hc | [<- | []]]; [| apply ltb_irrefl].
        destruct (PrimFloat.ltb (dist c last) (dist x last)) eqn:Hcx;
          [| reflexivity].
        rewrite <- (Hmin c Hc). symmetry. eapply ltb_trans; eassumption.
      * destruct Hc as [Hc | [<- | []]]; [apply Hmin; exact Hc | exact Hx].
    + unfold nearer.
      destruct (PrimFloat.ltb (dist x last) (snd s)) eqn:Hx; simpl.
      * right. exists seen, x, []. repeat split; try reflexivity.
        intros c Hc.
        destruct (@ltb_negtrans _ _ (dist c last) Hx) as [H | H].
        -- apply numbers, Hin, in_or_app. left. apply in_or_app. now left.
        -- exact H.
        -- rewrite (Hmin c Hc) in H. discriminate.
      * destruct Hidx as [-> | (b & n & a & -> & Hi & Hd & Hb)]; [now left |].
        right. exists b, n, (a ++ [x]). repeat split; try assumption.
        rewrite <- app_assoc. reflexivity.
Qed.

(** The point the scan selects. *)
Lemma nearestIdx_selects (unvisited : list Coord) :
  unvisited <> [] -> incl unvisited universe ->
  exists before next after,
    unvisited = before ++ next :: after /\
    nearestIdx last unvisited = length before /\
    (forall c, In c unvisited ->
               PrimFloat.ltb (dist c last) (dist next last) = false) /\
    (forall c, In c before ->
               PrimFloat.ltb (dist next last) (dist c last) = true).
Proof.
  intros Hne Hin. unfold nearestIdx.
  destruct (@scan_invariant unvisited [] (0, infinity)) as [Hmin Hidx].
  - exact Hin.
  - intros c [].
  - now left.
  - simpl in Hmin, Hidx.
    destruct Hidx as [Hs | (b & n & a & Hu & Hi & Hd & Hb)].
    + rewrite Hs in *. simpl in Hmin.
      destruct unvisited as [| x rest]; [congruence |].
      exists [], x, rest. repeat split; try reflexivity.
      * intros c Hc. apply ltb_not_below_infinity.
        -- apply numbers, Hin, Hc.
        -- apply Hmin, Hc.
      * intros c [].
    + exists b, n, a. repeat split; try assumption.
      intros c Hc. rewrite <- Hd. apply Hmin, Hc.
Qed.
End NearestScan.

Lemma splice1_middle (A : Type) (before after : list A) (x : A) :
  splice1 (before ++ x :: after) (length before) = ([x], before ++ after).
Proof.
  unfold splice1.
  assert (H1 : skipn (length before) (before ++ x :: after) = x :: after).
  { rewrite skipn_app, skipn_all, Nat.sub_diag. reflexivity. }
  assert (H2 : firstn (length before) (before ++ x :: after) = before).
  { rewrite firstn_app, firstn_all, Nat.sub_diag. simpl. apply app_nil_r. }
  assert (H3 : skipn (S (length before)) (before ++ x :: after) = after).
  { rewrite skipn_app, (skipn_all2 before) by lia.
    replace (S (length before) - length before) with 1 by lia. reflexivity. }
  rewrite H1, H2, H3. reflexivity.
Qed.

Lemma greedy_permutation last unvisited route :
  greedy last unvisited route -> Permutation route unvisited.
Proof.
  induction 1 as [| last b n a route Hmin Hfirst Hg IH]; [constructor |].
  apply Permutation_cons_app. exact IH.
Qed.

Lemma nn_loop_greedy (universe : list Coord) :
  (forall p q, In p universe -> In q universe -> is_nan (dist q p) = false) ->
  forall fuel done last unvisited,
    length unvisited <= fuel -> In last universe -> incl unvisited universe ->
    exists route,
      nn_loop fuel done last unvisited = Value (done ++ last :: route) /\
      greedy last unvisited route.
Proof.
  intros Hnum. induction fuel as [| fuel IH]; intros done last unvisited Hlen Hl Hin.
  - destruct unvisited; [| simpl in Hlen; lia].
    exists []. split; [reflexivity | constructor].
  - destruct unvisited as [| u unvisited'] eqn:Hu.
    + exists []. split; [reflexivity | constructor].
    + rewrite <- Hu in *.
      destruct (@nearestIdx_selects last universe (fun c => Hnum last c Hl)
                  unvisited) as (b & n & a & Hsplit & Hidx & Hmin & Hfirst).
      * rewrite Hu. discriminate.
      * exact Hin.
      * destruct (IH (done ++ [last]) n (b ++ a)) as (route & Hrun & Hg).
        -- rewrite Hsplit, length_app in Hlen. simpl in Hlen.
           rewrite length_app. lia.
        -- apply Hin. rewrite Hsplit. apply in_or_app. right. now left.
        -- intros c Hc. apply Hin. rewrite Hsplit.
           apply in_app_or in Hc. apply in_or_app.
           destruct Hc; [now left | right; now right].
        -- exists (n :: route). split.
           ++ rewrite Hu at 1. cbn [nn_loop]. rewrite <- Hu.
              rewrite Hidx, Hsplit, splice1_middle.
              rewrite Hrun, <- app_assoc. reflexivity.
           ++ rewrite Hsplit. constructor; try assumption.
              intros c Hc. apply Hmin. rewrite Hsplit. exact Hc.
Qed.

(** The index the scan ends with is an index of the scanned list. *)
Lemma forEach_nearer_bound (last : Coord) (rest : list Coord) (idx : nat)
    (s : nat * float) :
  fst s <= idx -> rest <> [] ->
  fst (forEach (nearer last) rest idx s) < idx + length rest.
Proof.
  revert idx s. induction rest as [| x rest IH]; intros idx s Hs Hne;
    [congruence |].
  cbn [forEach length].
  assert (Hs' : fst (nearer last s x idx) <= idx).
  { unfold nearer. destruct (PrimFloat.ltb _ _); simpl; lia. }
  destruct rest as [| y rest'].
  - simpl. lia.
  - assert (H : fst (forEach (nearer last) (y :: rest') (S idx)
                        (nearer last s x idx))
                 < S idx + length (y :: rest'))
      by (apply IH; [lia | discriminate]).
    cbn [length] in *. lia.
Qed.

Lemma nn_loop_permutation (fuel : nat) (done : list Coord) (last : Coord)
    (unvisited : list Coord) :
  length unvisited <= fuel ->
  exists route,
    nn_loop fuel done last unvisited = Value (done ++ last :: route) /\
    Permutation route unvisited.
Proof.
  revert done last unvisited.
  induction fuel as [| fuel IH]; intros done last unvisited Hlen.
  - destruct unvisited; [| simpl in Hlen; lia].
    exists []. split; [reflexivity | constructor].
  - destruct unvisited as [| u unvisited'] eqn:Hu.
    + exists []. split; [reflexivity | constructor].
    + rewrite <- Hu in *.
      assert (Hidx : nearestIdx last unvisited < length unvisited).
      { unfold nearestIdx.
        apply (@forEach_nearer_bound last unvisited 0 (0, infinity)).
        - simpl. lia.
        - rewrite Hu. discriminate. }
      destruct (nth_split unvisited u Hidx) as (b & a & Hsplit & Hb).
      set (n := nth (nearestIdx last unvisited) unvisited u) in *.
      destruct (IH (done ++ [last]) n (b ++ a)) as (route & Hrun & Hperm).
      * rewrite Hsplit, length_app in Hlen. simpl in Hlen.
        rewrite length_app. lia.
      * exists (n :: route). split.
        -- pose proof (splice1_middle b a n) as Hsp.
           rewrite <- Hsplit, Hb in Hsp.
           rewrite Hu at 1. cbn [nn_loop]. rewrite <- Hu.
           rewrite Hsp, Hrun, <- app_assoc. reflexivity.
        -- rewrite Hsplit. apply Permutation_cons_app. exact Hperm.
Qed.

(** C1. On every non-empty list of stops the nearest-neighbour block
    returns an order that starts with the first stop and is a permutation of
    the stops, and this order is the request sent in the [optimizeRoute]
    mode; when the distances between the stops are numbers, every next point
    of the order is an unvisited point to which no unvisited point is nearer
    than it, every unvisited point enumerated before it being strictly
    farther (the first minimum in enumeration order wins a tie). *)
Theorem nearest_neighbor_order (coords : list Coord) :
  coords <> [] ->
  exists first rest route,
    coords = first :: rest /\
    nearestNeighbor coords = Value (first :: route) /\
    Permutation (first :: route) coords /\
    (forall t w,
       fetches (exec (request_route (mkRun coords true t)) w)
       = fetches w ++ [first :: route]) /\
    (distances_are_numbers coords = true -> greedy first rest route).
Proof.
  intros Hne. destruct coords as [| first rest]; [congruence |].
  destruct (@nn_loop_permutation (length rest) [] first rest (le_n _))
    as (route & Hrun & Hperm).
  assert (Hnn : nearestNeighbor (first :: rest) = Value (first :: route))
    by exact Hrun.
  exists first, rest, route.
  split; [reflexivity |]. split; [exact Hnn |].
  split; [now constructor |]. split.
  - intros t w. unfold request_route. cbn [optimizeRoute coords].
    rewrite Hnn. reflexivity.
  - intros Hnum.
    assert (Hnum' : forall p q, In p (first :: rest) -> In q (first :: rest) ->
                                is_nan (dist q p) = false).
    { intros p q Hp Hq. unfold distances_are_numbers in Hnum.
      rewrite forallb_forall in Hnum. specialize (Hnum p Hp).
      rewrite forallb_forall in Hnum. specialize (Hnum q Hq).
      now destruct (is_nan (dist q p)). }
    destruct (@nn_loop_greedy (first :: rest) Hnum' (length rest) [] first rest)
      as (route' & Hrun' & Hg).
    + lia.
    + now left.
    + intros c Hc. now right.
    + rewrite Hrun in Hrun'. injection Hrun' as <-. exact Hg.
Qed.

Lemma nearest_neighbor_order_witness :
  exists first rest route,
    coordsOf [stopA; stopB; stopC] = first :: rest /\
    nearestNeighbor (coordsOf [stopA; stopB; stopC]) = Value (first :: route) /\
    Permutation (first :: route) (coordsOf [stopA; stopB; stopC]) /\
    greedy first rest route.
Proof.
  destruct (@nearest_neighbor_order (coordsOf [stopA; stopB; stopC]))
    as (first & rest & route & Hc & Hnn & Hperm & _ & Hg).
  - discriminate.
  - exists first, rest, route. repeat split; try assumption.
    apply Hg. vm_compute. reflexivity.
Defined.

(** ** Facts on [Array_sort] *)

Section SortFacts.
Variable A : Type.
Variable positive : A -> A -> bool.

Lemma insert_permutation (x : A) (l : list A) :
  Permutation (insert positive x l) (x :: l).
Proof.
  induction l as [| y r IH]; simpl; [reflexivity |].
  destruct (positive x y); [| reflexivity].
  rewrite IH. apply perm_swap.
Qed.

Lemma Array_sort_permutation (l : list A) :
  Permutation (Array_sort positive l) l.
Proof.
  induction l as [| x l IH]; simpl; [constructor |].
  rewrite insert_permutation. now constructor.
Qed.

(** Elements that the comparator never separates keep their order. *)
Lemma insert_stable (p : A -> bool) (x : A) (l : list A) :
  (forall a b, p a = true -> p b = true -> positive a b = false) ->
  filter p (insert positive x l) = filter p (x :: l).
Proof.
  intros Htie. induction l as [| y r IH]; [reflexivity |].
  cbn [insert]. destruct (positive x y) eqn:Hxy; [| reflexivity].
  cbn [filter] in *. rewrite IH.
  destruct (p x) eqn:Hx, (p y) eqn:Hy; try reflexivity.
  rewrite (Htie x y Hx Hy) in Hxy. discriminate.
Qed.

Lemma Array_sort_stable (p : A -> bool) (l : list A) :
  (forall a b, p a = true -> p b = true -> positive a b = false) ->
  filter p (Array_sort positive l) = filter p l.
Proof.
  intros Htie. induction l as [| x l IH]; [reflexivity |].
  cbn [Array_sort fold_right]. rewrite insert_stable by exact Htie.
  cbn [filter]. unfold Array_sort in IH. rewrite IH. reflexivity.
Qed.

Hypothesis asym : forall a b, positive a b = true -> positive b a = false.
Hypothesis negtrans :
  forall a b c, positive a b = false -> positive b c = false ->
                positive a c = false.

Lemma insert_sorted (x : A) (l : list A) :
  StronglySorted (fun a b => positive a b = false) l ->
  StronglySorted (fun a b => positive a b = false) (insert positive x l).
Proof.
  induction 1 as [| y r Hs IH Hy]; simpl.
  - repeat constructor.
  - destruct (positive x y) eqn:Hxy.
    + constructor; [exact IH |].
      rewrite Forall_forall in *. intros z Hz.
      apply (Permutation_in _ (insert_permutation x r)) in Hz.
      destruct Hz as [<- | Hz]; [now apply asym | now apply Hy].
    + constructor; [now constructor |].
      constructor; [exact Hxy |].
      rewrite Forall_forall in *. intros z Hz.
      apply negtrans with (b := y); [exact Hxy | now apply Hy].
Qed.

Lemma Array_sort_sorted (l : list A) :
  StronglySorted (fun a b => positive a b = false) (Array_sort positive l).
Proof.
  induction l as [| x l IH]; simpl; [constructor |].
  now apply insert_sorted.
Qed.
End SortFacts.

Lemma Array_sort_map (A : Type) (positive : A -> A -> bool) (f : A -> A)
    (l : list A) :
  (forall a b, positive (f a) (f b) = positive a b) ->
  Array_sort positive (map f l) = map f (Array_sort positive l).
Proof.
  intros Hf.
  assert (Hins : forall x r,
            insert positive (f x) (map f r) = map f (insert positive x r)).
  { intros x r. induction r as [| y r IH]; [reflexivity |].
    simpl. rewrite Hf. destruct (positive x y); simpl; [now rewrite IH |].
    reflexivity. }
  induction l as [| x l IH]; [reflexivity |].
  cbn [map]. change (Array_sort positive (f x :: map f l))
    with (insert positive (f x) (Array_sort positive (map f l))).
  rewrite IH. apply Hins.
Qed.

Lemma StronglySorted_weaken (A : Type) (R R' : A -> A -> Prop) (l : list A) :
  (forall a b, R a b -> R' a b) -> StronglySorted R l -> StronglySorted R' l.
Proof.
  intros HR. induction 1 as [| x l Hs IH Hx]; constructor; [exact IH |].
  rewrite Forall_forall in *. intros y Hy. apply HR, Hx, Hy.
Qed.

(** ** The active tickets of the map *)

Section ActiveOrder.
Variable getTime : string -> Z.

Let positive (a b : Ticket) : bool := (0 <? compareActive getTime a b)%Z.

Lemma compareActive_asym (a b : Ticket) :
  positive a b = true -> positive b a = false.
Proof.
  unfold positive, compareActive.
  destruct (severity (pothole_metadata a)), (severity (pothole_metadata b));
    simpl; lia.
Qed.

Lemma compareActive_negtrans (a b c : Ticket) :
  positive a b = false -> positive b c = false -> positive a c = false.
Proof.
  unfold positive, compareActive.
  destruct (severity (pothole_metadata a)), (severity (pothole_metadata b)),
           (severity (pothole_metadata c)); simpl; lia.
Qed.

Lemma compareActive_may_precede (a b : Ticket) :
  positive a b = false -> may_precede getTime a b.
Proof.
  unfold positive, compareActive, may_precede.
  destruct (severity (pothole_metadata a)), (severity (pothole_metadata b));
    simpl; intros H;
    solve [ left; constructor | right; split; [reflexivity | lia] | lia ].
Qed.

Lemma compareActive_tie (s : Severity) (time : Z) (a b : Ticket) :
  of_rank getTime s time a = true -> of_rank getTime s time b = true ->
  positive a b = false.
Proof.
  unfold positive, compareActive, of_rank.
  destruct (severity (pothole_metadata a)), (severity (pothole_metadata b)), s;
    simpl; lia.
Qed.
End ActiveOrder.

Lemma Status_eqb_eq (a b : Status) : Status_eqb a b = true <-> a = b.
Proof. destruct a, b; simpl; split; congruence. Qed.

(** C5. The derived active-ticket list holds exactly the ACTIVE tickets of
    the input; it is sorted by severity, HIGH before MEDIUM before LOW, with
    the newer ticket first among equally severe ones; tickets of one
    severity and one creation time keep their input order (the sort is
    stable); and the list [LOW@t1, HIGH@t2, HIGH@t3] with t2 < t3 comes out
    as [HIGH@t3, HIGH@t2, LOW@t1]. *)
Theorem activeTickets_sorted (getTime : string -> Z) (tickets : list Ticket) :
  let result := activeTickets getTime tickets in
  let active := filter (fun t => Status_eqb (status t) ACTIVE) tickets in
  Permutation result active /\
  (forall t, In t result <-> In t tickets /\ status t = ACTIVE) /\
  StronglySorted (may_precede getTime) result /\
  (forall s time,
     filter (of_rank getTime s time) result
     = filter (of_rank getTime s time) active) /\
  (forall low high2 high3 : Ticket,
     status low = ACTIVE -> status high2 = ACTIVE -> status high3 = ACTIVE ->
     severity (pothole_metadata low) = LOW ->
     severity (pothole_metadata high2) = HIGH ->
     severity (pothole_metadata high3) = HIGH ->
     (getTime (created_at high2) < getTime (created_at high3))%Z ->
     activeTickets getTime [low; high2; high3] = [high3; high2; low]).
Proof.
  cbv zeta. unfold activeTickets.
  assert (Hperm := Array_sort_permutation
            (fun a b => (0 <? compareActive getTime a b)%Z)
            (filter (fun t => Status_eqb (status t) ACTIVE) tickets)).
  split; [exact Hperm |]. split; [| split; [| split]].
  - intros t. rewrite <- Status_eqb_eq, <- (filter_In (fun t => Status_eqb (status t) ACTIVE)).
    split; intros H.
    + eapply Permutation_in; eassumption.
    + eapply Permutation_in; [symmetry |]; eassumption.
  - eapply StronglySorted_weaken; [apply compareActive_may_precede |].
    apply Array_sort_sorted.
    + apply compareActive_asym.
    + apply compareActive_negtrans.
  - intros s time. apply Array_sort_stable.
    intros a b. apply compareActive_tie.
  - intros [i1 st1 c1 [la1 lo1 sv1 im1 de1 sc1]] [i2 st2 c2 [la2 lo2 sv2 im2 de2 sc2]]
           [i3 st3 c3 [la3 lo3 sv3 im3 de3 sc3]]; simpl.
    intros -> -> -> -> -> -> Ht. unfold compareActive. simpl.
    destruct (Z.ltb_spec 0 (getTime c3 - getTime c2)); [reflexivity | lia].
Qed.

(** ** The order of the panel *)

Lemma Qpositive_lt (a b : Ticket) :
  Qpositive (compareScore a b) = true <-> (score a < score b)%Q.
Proof.
  unfold Qpositive, compareScore. rewrite negb_true_iff.
  rewrite <- not_true_iff_false, Qle_bool_iff. split; intros H; lra.
Qed.

Lemma Qpositive_ge (a b : Ticket) :
  Qpositive (compareScore a b) = false <-> (score b <= score a)%Q.
Proof.
  rewrite <- not_true_iff_false, Qpositive_lt. split; intros H; lra.
Qed.

Lemma sorted_before (A : Type) (R : A -> A -> Prop) (l : list A) (x y : A) :
  StronglySorted R l -> R x x -> In x l -> In y l -> ~ R x y -> before y x l.
Proof.
  intros Hs Hxx. induction Hs as [| z r Hs IH Hz]; intros Hx Hy Hn; [destruct Hx |].
  rewrite Forall_forall in Hz.
  destruct Hx as [-> | Hx].
  - destruct Hy as [-> | Hy]; [contradiction | elim Hn; apply Hz, Hy].
  - destruct Hy as [-> | Hy].
    + destruct (in_split _ _ Hx) as (l2 & l3 & ->). now exists [], l2, l3.
    + destruct (IH Hx Hy Hn) as (l1 & l2 & l3 & ->). now exists (z :: l1), l2, l3.
Qed.

(** C10. The panel shows a permutation of its tickets sorted by
    [severity_score] descending with an absent score counted as 0, tickets
    of equal score keeping their input order; the order depends on nothing
    but the scores (changing severity, status or creation time of the
    tickets does not move them); a ticket without a score comes after every
    ticket with a positive score; and there are ticket lists that the panel
    and the map order differently. *)
Theorem panel_order (tickets : list Ticket) :
  Permutation (sorted tickets) tickets /\
  StronglySorted (fun a b => (score b <= score a)%Q) (sorted tickets) /\
  (forall q, filter (of_score q) (sorted tickets) = filter (of_score q) tickets) /\
  (forall f : Ticket -> Ticket,
     (forall t, severity_score (pothole_metadata (f t))
                = severity_score (pothole_metadata t)) ->
     sorted (map f tickets) = map f (sorted tickets)) /\
  (forall a b,
     In a tickets -> In b tickets ->
     severity_score (pothole_metadata a) = None -> (0 < score b)%Q ->
     before b a (sorted tickets)) /\
  (exists getTime ts, sorted ts <> activeTickets getTime ts).
Proof.
  assert (Hsorted : StronglySorted (fun a b => (score b <= score a)%Q)
                      (sorted tickets)).
  { eapply StronglySorted_weaken; [intros a b; apply Qpositive_ge |].
    apply Array_sort_sorted.
    - intros a b. rewrite Qpositive_lt, Qpositive_ge. lra.
    - intros a b c. rewrite !Qpositive_ge. lra. }
  assert (Hperm : Permutation (sorted tickets) tickets)
    by apply Array_sort_permutation.
  split; [exact Hperm |]. split; [exact Hsorted |].
  split; [| split; [| split]].
  - intros q. apply Array_sort_stable. intros a b Ha Hb.
    unfold of_score in *. apply Qeq_bool_iff in Ha, Hb.
    apply Qpositive_ge. lra.
  - intros f Hf. apply Array_sort_map. intros a b.
    unfold compareScore, score. now rewrite !Hf.
  - intros a b Ha Hb Hnone Hpos.
    apply sorted_before with (R := fun a b => (score b <= score a)%Q).
    + exact Hsorted.
    + lra.
    + eapply Permutation_in; [symmetry |]; eassumption.
    + eapply Permutation_in; [symmetry |]; eassumption.
    + unfold score at 2. rewrite Hnone. lra.
  - exists sample_clock,
      [report "p" ACTIVE "2025-01-01" LOW (Some (9 # 1)%Q);
       report "q" ACTIVE "2025-01-01" HIGH (Some (1 # 1)%Q)].
    intros H. apply (f_equal (map id)) in H. vm_compute in H. discriminate.
Qed.

(** ** The canonical ticket list *)

Lemma differs_neq (s x : string) : differs s (Some x) = true <-> s <> x.
Proof.
  unfold differs. rewrite negb_true_iff.
  destruct (String.eqb_spec s x); split; congruence.
Qed.

(** C2. An INSERT or UPDATE event sends one re-fetch, and a re-fetch that
    succeeds with [rows] makes [rows] the canonical list (so it has as many
    tickets as the store returned); a DELETE event for id [x] sends nothing,
    and leaves, in their order, exactly the tickets whose id is not [x]. *)
Theorem change_event_reconciles (d : Dashboard) (old : option string)
    (res : QueryResult) (rows : list Ticket) (x : string) :
  let refetched e :=
    onChangeEvent (mkPayload e old) (mkResult (Some rows) None) d in
  let deleted := onChangeEvent (mkPayload DELETE (Some x)) res d in
  calls (onChangeEvent (mkPayload INSERT old) res d)
    = calls d ++ [SelectTickets] /\
  calls (onChangeEvent (mkPayload UPDATE old) res d)
    = calls d ++ [SelectTickets] /\
  tickets (refetched INSERT) = rows /\
  tickets (refetched UPDATE) = rows /\
  length (tickets (refetched INSERT)) = length rows /\
  calls deleted = calls d /\
  tickets deleted = filter (fun t => negb (String.eqb (id t) x)) (tickets d) /\
  (forall t, In t (tickets deleted) <-> In t (tickets d) /\ id t <> x).
Proof.
  cbv zeta.
  assert (Hcalls : calls (fetchTickets res d) = calls d ++ [SelectTickets]).
  { unfold fetchTickets. destruct (error res); [reflexivity |].
    now destruct (data res). }
  do 2 (split; [exact Hcalls |]).
  do 5 (split; [reflexivity |]).
  intros t. unfold onChangeEvent, setTickets.
  cbn [eventType old_id tickets]. rewrite filter_In, differs_neq.
  reflexivity.
Qed.

(** C6. When the read query of a load answers with an error, the canonical
    list is what it was, and the load has sent that one query and nothing
    else; so it is for the initial load and for the re-fetch of an INSERT or
    UPDATE event. *)
Theorem failed_load_keeps_list (d : Dashboard) (rows : option (list Ticket))
    (e : string) (old : option string) :
  let failure := mkResult rows (Some e) in
  tickets (fetchTickets failure d) = tickets d /\
  calls (fetchTickets failure d) = calls d ++ [SelectTickets] /\
  tickets (onChangeEvent (mkPayload INSERT old) failure d) = tickets d /\
  tickets (onChangeEvent (mkPayload UPDATE old) failure d) = tickets d.
Proof. cbv zeta. repeat split. Qed.

(** C9. A status update sends one update request; when the store answers
    with an error the local list is what it was; when it answers without
    one, the tickets with the targeted id get the new status and no other
    field of any ticket changes. *)
Theorem status_update_follows_remote (d : Dashboard) (x : string)
    (newStatus : Status) (e : string) :
  let failed := updateStatus (Some handleUpdate) x newStatus (Some e) d in
  let succeeded := updateStatus (Some handleUpdate) x newStatus None d in
  calls failed = calls d ++ [UpdateTicket x newStatus] /\
  calls succeeded = calls d ++ [UpdateTicket x newStatus] /\
  tickets failed = tickets d /\
  Forall2 (fun t t' =>
             id t' = id t /\ created_at t' = created_at t /\
             pothole_metadata t' = pothole_metadata t /\
             status t' = (if String.eqb (id t) x then newStatus else status t))
          (tickets d) (tickets succeeded).
Proof.
  cbv zeta. unfold updateStatus, handleUpdate, setTickets, request. cbn.
  repeat split.
  induction (tickets d) as [| t l IH]; constructor; [| exact IH].
  destruct (String.eqb (id t) x); repeat split.
Qed.

(** ** What a settled route request draws *)

Ltac unfold_eff :=
  unfold RouteLine1.fetchOptimalRoute_resume, RouteLine2.fetchOptimalRoute_resume,
    RouteLine1.catch_block, RouteLine2.catch_block, RouteLine2.still_active,
    on_response, firstRoute, draw_route, draw_fallback, stopLoading,
    try_catch, bind, ret, throw, return_, gets, modify, addTo_map,
    set_routePolylineRef, set_decoratorRef, set_isCalculatingRef,
    onLoadingChange in *.

Lemma route_geometry_some (o : FetchOutcome) (lonlats : list Coord)
    (H : route_geometry o = Some lonlats) (guard : Eff unit) (r : Run) :
  on_response guard r o = (guard ;; draw_route r lonlats).
Proof.
  revert H. unfold route_geometry, on_response, firstRoute.
  destruct o as [| body]; [discriminate |].
  destruct (String.eqb (code body) "Ok"); [| discriminate].
  destruct (routes body) as [[| r0 rs] |]; try discriminate.
  intros ->. reflexivity.
Qed.

Lemma route_geometry_none (o : FetchOutcome) (H : route_geometry o = None)
    (guard : Eff unit) (r : Run) :
  on_response guard r o = throw \/ on_response guard r o = (guard ;; throw).
Proof.
  revert H. unfold route_geometry, on_response, firstRoute.
  destruct o as [| body]; [now left |].
  destruct (String.eqb (code body) "Ok"); [| now left].
  destruct (routes body) as [[| r0 rs] |]; try now left.
  intros ->. now right.
Qed.

(** C7. When the response has code "Ok" and a first route with coordinates
    (lon, lat), the polyline that is drawn (by the first revision always, by
    the second when the calculation is still marked as running; otherwise
    the second draws nothing) has exactly the swapped (lat, lon) points, in
    the same order and number. *)
Theorem route_points_swapped (r : Run) (o : FetchOutcome)
    (lonlats : list Coord) (w : World) :
  route_geometry o = Some lonlats ->
  let line :=
    mkLayer (next_id w)
      (Polyline (map swap lonlats) (routeOptions (optimizeRoute r))) in
  (exists w',
     RouteLine1.fetchOptimalRoute_resume r o w = (Normal tt, w') /\
     routePolylineRef w' = Some line /\ In line (map_layers w')) /\
  (isCalculatingRef w = true ->
   exists w',
     RouteLine2.fetchOptimalRoute_resume r o w = (Normal tt, w') /\
     routePolylineRef w' = Some line /\ In line (map_layers w')) /\
  (isCalculatingRef w = false ->
   RouteLine2.fetchOptimalRoute_resume r o w = (Returned, w)) /\
  length (points line) = length lonlats /\
  (forall i lon lat,
     nth_error lonlats i = Some (lon, lat) ->
     nth_error (points line) i = Some (lat, lon)).
Proof.
  intros Hgeo. cbv zeta.
  unfold RouteLine1.fetchOptimalRoute_resume, RouteLine2.fetchOptimalRoute_resume.
  rewrite !route_geometry_some with (lonlats := lonlats) by exact Hgeo.
  split; [| split; [| split; [| split]]].
  - eexists. unfold_eff. cbn. split; [reflexivity |]. split; [reflexivity |].
    apply in_or_app. left. apply in_or_app. right. now left.
  - intros Hlive. eexists. unfold_eff. cbn. rewrite Hlive. cbn.
    split; [reflexivity |]. split; [reflexivity |].
    apply in_or_app. left. apply in_or_app. right. now left.
  - intros Hstale. unfold_eff. cbn. rewrite Hstale. reflexivity.
  - cbn. apply length_map.
  - intros i lon lat Hi. cbn. rewrite nth_error_map, Hi. reflexivity.
Qed.

Lemma route_points_swapped_witness :
  let r := mkRun (coordsOf [stopA; stopB]) false 0 in
  let line :=
    mkLayer (next_id live_world)
      (Polyline (map swap geometryAB) (routeOptions false)) in
  (exists w',
     RouteLine1.fetchOptimalRoute_resume r (ok_response geometryAB) live_world
     = (Normal tt, w') /\ routePolylineRef w' = Some line) /\
  (exists w',
     RouteLine2.fetchOptimalRoute_resume r (ok_response geometryAB) live_world
     = (Normal tt, w') /\ routePolylineRef w' = Some line).
Proof.
  cbv zeta.
  destruct (@route_points_swapped (mkRun (coordsOf [stopA; stopB]) false 0)
              (ok_response geometryAB) geometryAB live_world eq_refl)
    as ((w1 & Hrun1 & Href1 & _) & H2 & _).
  destruct (H2 eq_refl) as (w2 & Hrun2 & Href2 & _).
  split; [exists w1 | exists w2]; split; assumption.
Defined.

(** The run an effect starts keeps the stops in the order of its input,
    in either mode. *)
Lemma effect_run_coords (tickets : list Ticket) (optimize : bool) (w w' : World)
    (r : Run) (sent : option nat) :
  RouteLine1.effect tickets optimize w = (Normal (Some r, sent), w') \/
  RouteLine2.effect tickets optimize w = (Normal (Some r, sent), w') ->
  coords r = coordsOf tickets /\ optimizeRoute r = optimize.
Proof.
  unfold RouteLine1.effect, RouteLine2.effect, bind, gets, ret.
  intros [H | H];
    repeat match type of H with
    | context [match ?e with _ => _ end] => destruct e; try discriminate
    | context [if ?e then _ else _] => destruct e; try discriminate
    end;
    injection H as <- _ _; split; reflexivity.
Qed.

(** C3, as amended. When the route fetch fails (rejected, unparsable, code
    other than "Ok", no first route or no coordinates), the first revision
    draws, and the second revision draws when the calculation is still
    marked as running and otherwise leaves everything as it is, one polyline
    in the fallback style through the stops in the order of the input
    tickets, whatever the mode; the path completes normally and clears the
    loading indicator. *)
Theorem fallback_straight_line (r : Run) (o : FetchOutcome) (w : World) :
  route_geometry o = None ->
  let line :=
    mkLayer (next_id w) (Polyline (map swap (coords r)) fallbackOptions) in
  (exists w',
     RouteLine1.fetchOptimalRoute_resume r o w = (Normal tt, w') /\
     routePolylineRef w' = Some line /\
     map_layers w' = map_layers w ++ [line] /\
     isCalculatingRoutes w' = false) /\
  (isCalculatingRef w = true ->
   exists w',
     RouteLine2.fetchOptimalRoute_resume r o w = (Normal tt, w') /\
     routePolylineRef w' = Some line /\
     map_layers w' = map_layers w ++ [line] /\
     isCalculatingRoutes w' = false) /\
  (isCalculatingRef w = false ->
   RouteLine2.fetchOptimalRoute_resume r o w = (Returned, w)) /\
  is_fallback line = true /\
  points line = map swap (coords r) /\
  (forall tickets optimize w0 w1 sent,
     RouteLine1.effect tickets optimize w0 = (Normal (Some r, sent), w1) \/
     RouteLine2.effect tickets optimize w0 = (Normal (Some r, sent), w1) ->
     points line = map swap (coordsOf tickets)).
Proof.
  intros Hgeo. cbv zeta.
  unfold RouteLine1.fetchOptimalRoute_resume, RouteLine2.fetchOptimalRoute_resume.
  split; [| split; [| split; [| split; [| split]]]].
  - destruct (@route_geometry_none o Hgeo (ret tt) r) as [-> | ->];
      eexists; unfold_eff; cbn; repeat split.
  - intros Hlive.
    destruct (@route_geometry_none o Hgeo RouteLine2.still_active r) as [-> | ->];
      eexists; unfold_eff; repeat (progress (cbn; rewrite ?Hlive));
      repeat split.
  - intros Hstale.
    destruct (@route_geometry_none o Hgeo RouteLine2.still_active r) as [-> | ->];
      unfold_eff; repeat (progress (cbn; rewrite ?Hstale)); reflexivity.
  - reflexivity.
  - reflexivity.
  - intros tickets optimize w0 w1 sent H.
    apply effect_run_coords in H. cbn. now rewrite (proj1 H).
Qed.

Lemma fallback_straight_line_witness :
  let r := mkRun (coordsOf [stopA; stopB; stopC]) true 0 in
  let line :=
    mkLayer (next_id live_world)
      (Polyline (map swap (coordsOf [stopA; stopB; stopC])) fallbackOptions) in
  (exists w',
     RouteLine1.fetchOptimalRoute_resume r Rejected live_world = (Normal tt, w') /\
     routePolylineRef w' = Some line) /\
  (exists w',
     RouteLine2.fetchOptimalRoute_resume r Rejected live_world = (Normal tt, w') /\
     routePolylineRef w' = Some line).
Proof.
  cbv zeta.
  destruct (@fallback_straight_line
              (mkRun (coordsOf [stopA; stopB; stopC]) true 0) Rejected
              live_world eq_refl)
    as ((w1 & Hrun1 & Href1 & _) & H2 & _).
  destruct (H2 eq_refl) as (w2 & Hrun2 & Href2 & _).
  split; [exists w1 | exists w2]; split; assumption.
Defined.

(** C3 as stated fails: in the nearest-neighbour mode the fallback polyline
    does not follow the order that was sent to the routing service, and a
    failure that reaches the second revision after its calculation was
    stopped draws no polyline. *)
Lemma fallback_not_in_request_order :
  let c := run revision1 [Render [stopA; stopB; stopC] true; Settle 0 Rejected] in
  let stale :=
    run revision2 [Render [stopA; stopB] false; Render [stopA] false;
                   Settle 0 Rejected] in
  (exists request line,
     fetches (world c) = [request] /\
     routePolylineRef (world c) = Some line /\
     is_fallback line = true /\
     points line = map swap (coordsOf [stopA; stopB; stopC]) /\
     points line <> map swap request) /\
  route_visuals (world stale) = [].
Proof.
  cbv zeta. split; [| vm_compute; reflexivity].
  eexists. eexists.
  split; [vm_compute; reflexivity |]. split; [vm_compute; reflexivity |].
  split; [vm_compute; reflexivity |]. split; [vm_compute; reflexivity |].
  intros H.
  apply (f_equal (map (fun c => PrimFloat.eqb (snd c) 1))) in H.
  vm_compute in H. discriminate.
Qed.

(** C4 fails on the code.  Two calculations, the first still waiting when
    the second starts, the first response arriving first: the second
    revision ends with one route on the map, that of the first (stale)
    calculation; the first revision ends with both routes on the map. *)
Theorem stale_route_is_committed :
  let events :=
    [Render [stopA; stopB] false; Render [stopA; stopB; stopC] false;
     Settle 0 (ok_response geometryAB); Settle 1 (ok_response geometryABC)] in
  map points (route_visuals (world (run revision2 events)))
    = [map swap geometryAB] /\
  map points (route_visuals (world (run revision1 events)))
    = [map swap geometryAB; map swap geometryABC].
Proof. cbv zeta. split; vm_compute; reflexivity. Qed.

(** C8 fails on the first revision.  A calculation for two stops is
    waiting, the stops drop to one, the response arrives: the first
    revision draws the route although there is one stop (the second
    revision draws nothing). *)
Theorem stale_route_below_threshold :
  let events :=
    [Render [stopA; stopB] false; Render [stopA] false;
     Settle 0 (ok_response geometryAB)] in
  map points (route_visuals (world (run revision1 events)))
    = [map swap geometryAB] /\
  route_visuals (world (run revision2 events)) = [].
Proof. cbv zeta. split; vm_compute; reflexivity. Qed.

(** ** The second revision below the threshold *)

Ltac unfold_world :=
  unfold RouteLine2.cleanup, RouteLine2.clearRouteLayers, RouteLine2.effect,
    RouteLine2.fetchOptimalRoute_start, RouteLine2.fetchOptimalRoute_resume,
    RouteLine2.catch_block, RouteLine2.still_active, RouteLine1.clearRoute,
    RouteLine1.effect, async, request_route,
    draw_route, draw_fallback, stopLoading, clearTimeout, setTimeout, fetch,
    removeLayer, hasLayer, exec,
    try_catch, bind, ret, throw, return_, gets, modify, addTo_map,
    set_routePolylineRef, set_decoratorRef, set_isCalculatingRef,
    onLoadingChange in *.

Lemma clearRouteLayers_held (w : World) :
  held w ->
  RouteLine2.clearRouteLayers w
  = (Normal tt, mkWorld [] None None (isCalculatingRef w)
       (isCalculatingRoutes w) (next_id w) (timers w) (fetches w)).
Proof.
  destruct w as [layers p d flag loading n ts fs]. unfold held. cbn.
  intros ->. unfold_world. unfold same_layer.
  destruct p as [p |], d as [d |];
    repeat (progress (cbn; rewrite ?Nat.eqb_refl)); try reflexivity.
  destruct (Nat.eqb (leaflet_id p) (leaflet_id d)) eqn:E;
    repeat (progress (cbn; rewrite ?Nat.eqb_refl)); reflexivity.
Qed.

Lemma effect2_below (tickets : list Ticket) (optimize : bool) (w : World) :
  length tickets < 2 -> held w ->
  RouteLine2.effect tickets optimize w
  = (Normal (None, None),
     mkWorld [] None None false false (next_id w) (timers w) (fetches w)).
Proof.
  intros Hlen Hheld. unfold RouteLine2.effect.
  destruct (Nat.ltb_spec (length tickets) 2); [| lia].
  unfold bind at 1. rewrite clearRouteLayers_held by exact Hheld.
  reflexivity.
Qed.

Lemma effect1_below (tickets : list Ticket) (optimize : bool) (w : World) :
  length tickets < 2 -> held w ->
  RouteLine1.effect tickets optimize w
  = (Normal (None, None),
     mkWorld [] None None false false (next_id w) (timers w) (fetches w)).
Proof.
  intros Hlen. destruct w as [layers p d flag loading n ts fs].
  unfold held. cbn. intros ->. unfold RouteLine1.effect.
  destruct (Nat.ltb_spec (length tickets) 2); [| lia].
  unfold_world. unfold same_layer.
  destruct p as [p |], d as [d |];
    repeat (progress (cbn; rewrite ?Nat.eqb_refl)); try reflexivity.
  destruct (Nat.eqb (leaflet_id p) (leaflet_id d)) eqn:E;
    repeat (progress (cbn; rewrite ?Nat.eqb_refl)); reflexivity.
Qed.

Lemma held_empty (w : World) :
  held w -> map_layers w = [] ->
  routePolylineRef w = None /\ decoratorRef w = None.
Proof.
  unfold held. intros -> H.
  destruct (routePolylineRef w), (decoratorRef w); try discriminate.
  now split.
Qed.

Lemma cleanup2_held (r : Run) (w : World) :
  held w ->
  exec (RouteLine2.cleanup r) w
  = mkWorld [] None None false false (next_id w)
      (filter (fun t => negb (Nat.eqb t (timeoutId r))) (timers w)) (fetches w).
Proof.
  destruct w as [layers p d flag loading n ts fs]. unfold held. cbn.
  intros ->. unfold_world. unfold same_layer.
  destruct p as [p |], d as [d |];
    repeat (progress (cbn; rewrite ?Nat.eqb_refl)); try reflexivity.
  destruct (Nat.eqb (leaflet_id p) (leaflet_id d)) eqn:E;
    repeat (progress (cbn; rewrite ?Nat.eqb_refl)); reflexivity.
Qed.

Lemma effect2_start (tickets : list Ticket) (optimize : bool) (w : World) :
  2 <= length tickets ->
  map_layers w = [] -> routePolylineRef w = None -> decoratorRef w = None ->
  exists r sent w',
    RouteLine2.effect tickets optimize w = (Normal (Some r, sent), w') /\
    held w' /\ (isCalculatingRef w' = true -> map_layers w' = []).
Proof.
  intros Hlen. destruct w as [layers p d flag loading n ts fs]. cbn.
  intros -> -> ->. unfold RouteLine2.effect.
  destruct (Nat.ltb_spec (length tickets) 2); [lia |].
  unfold_world. cbn.
  destruct optimize; [destruct (nearestNeighbor (coordsOf tickets)) |]; cbn;
    do 3 eexists; (split; [reflexivity |]); unfold held; cbn;
    (split; [reflexivity | congruence]).
Qed.

Lemma resume2_consistent (r : Run) (o : FetchOutcome) (w : World) :
  held w -> (isCalculatingRef w = true -> map_layers w = []) ->
  let w' := exec (RouteLine2.fetchOptimalRoute_resume r o) w in
  held w' /\ (isCalculatingRef w' = true -> map_layers w' = []) /\
  (isCalculatingRef w = false -> w' = w).
Proof.
  intros Hheld Hlive. cbv zeta. unfold RouteLine2.fetchOptimalRoute_resume.
  destruct (isCalculatingRef w) eqn:Hflag.
  - destruct (held_empty Hheld (Hlive eq_refl)) as [Hp Hd].
    specialize (Hlive eq_refl).
    destruct w as [layers p d flag loading n ts fs]. cbn in *. subst.
    destruct (route_geometry o) as [lonlats |] eqn:Hgeo.
    + rewrite route_geometry_some with (lonlats := lonlats) by exact Hgeo.
      unfold_world. unfold held. cbn. repeat split; congruence.
    + destruct (@route_geometry_none o Hgeo RouteLine2.still_active r)
        as [-> | ->];
        unfold_world; unfold held; repeat (progress cbn);
        repeat split; congruence.
  - assert (Hsame : exec (try_catch (on_response RouteLine2.still_active r o)
                            (RouteLine2.catch_block r)) w = w).
    { destruct (route_geometry o) as [lonlats |] eqn:Hgeo.
      - rewrite route_geometry_some with (lonlats := lonlats) by exact Hgeo.
        unfold_world. cbn. rewrite Hflag. reflexivity.
      - destruct (@route_geometry_none o Hgeo RouteLine2.still_active r)
          as [-> | ->];
          unfold_world; repeat (progress (cbn; rewrite ?Hflag));
          reflexivity. }
    rewrite Hsame. repeat split; try assumption. congruence.
Qed.

Lemma step2_consistent (c : Component) (e : Event) :
  consistent c -> consistent (step revision2 c e).
Proof.
  destruct c as [w cl aw]. unfold consistent. cbn [world cleanupFn].
  intros (Hheld & Hlive & Hquiet).
  assert (Hclean : let w0 := run_cleanup revision2 (mkComponent w cl aw) in
            map_layers w0 = [] /\ routePolylineRef w0 = None /\
            decoratorRef w0 = None /\ isCalculatingRef w0 = false /\
            isCalculatingRoutes w0 = false).
  { unfold run_cleanup. cbn [cleanupFn world revision2 rev_cleanup].
    destruct cl as [r |].
    - rewrite cleanup2_held by exact Hheld. cbn. repeat split.
    - destruct (Hquiet eq_refl) as (Hm & Hf & Hl).
      destruct (held_empty Hheld Hm). repeat split; assumption. }
  cbv zeta in Hclean. destruct Hclean as (Cm & Cp & Cd & Cf & Cl).
  assert (Hheld0 : held (run_cleanup revision2 (mkComponent w cl aw)))
    by (unfold held; rewrite Cm, Cp, Cd; reflexivity).
  destruct e as [tickets optimize | request o | t |];
    cbn [step awaiting world cleanupFn].
  - cbn [rev_effect revision2].
    destruct (Nat.lt_ge_cases (length tickets) 2) as [Hlt | Hge].
    + rewrite effect2_below by assumption. cbn. unfold held. cbn.
      repeat split; congruence.
    + destruct (@effect2_start tickets optimize _ Hge Cm Cp Cd)
        as (r & sent & w' & -> & Hh & Hl).
      destruct sent; cbn; repeat split; try assumption; discriminate.
  - destruct (lookup_run request aw) as [r |]; cbn [world cleanupFn].
    + cbn [rev_resume revision2].
      destruct (@resume2_consistent r o w Hheld Hlive) as (Hh & Hl & Hs).
      cbv zeta in Hh, Hl, Hs.
      destruct (exec (RouteLine2.fetchOptimalRoute_resume r o) w)
        as [layers p d flag loading n ts fs] eqn:Hw1.
      unfold held in Hh. cbn in Hh, Hl. unfold held. cbn.
      split; [exact Hh |]. split; [exact Hl |].
      intros Hcl. destruct (Hquiet Hcl) as (Hm & Hf & Hlo).
      specialize (Hs Hf). rewrite <- Hs in Hm, Hf, Hlo. cbn in Hm, Hf, Hlo.
      repeat split; assumption.
    + exact (conj Hheld (conj Hlive Hquiet)).
  - destruct (existsb (Nat.eqb t) (timers w)); cbn [world cleanupFn].
    + destruct w as [layers p d flag loading n ts fs].
      unfold held in *. cbn in *.
      split; [exact Hheld |]. split; [discriminate |].
      intros Hcl. destruct (Hquiet Hcl) as (Hm & Hf & Hlo).
      repeat split; try assumption; reflexivity.
    + exact (conj Hheld (conj Hlive Hquiet)).
  - repeat split; try assumption; congruence.
Qed.

Lemma run2_consistent (events : list Event) : consistent (run revision2 events).
Proof.
  unfold run.
  assert (H : consistent mounted) by (repeat split; discriminate).
  revert H. generalize mounted.
  induction events as [| e events IH]; intros c Hc; [exact Hc |].
  apply IH, step2_consistent, Hc.
Qed.

(** In the second revision, once the stops are fewer than two, there is no
    route on the map and no loading indicator, whatever settles or fires
    afterwards. *)
Lemma revision2_quiet_below_threshold (earlier later : list Event)
    (tickets : list Ticket) (optimize : bool) :
  length tickets < 2 -> forallb (fun e => negb (is_render e)) later = true ->
  let c := run revision2 (earlier ++ Render tickets optimize :: later) in
  route_visuals (world c) = [] /\ isCalculatingRoutes (world c) = false /\
  isCalculatingRef (world c) = false.
Proof.
  intros Hlen Hlater. cbv zeta.
  assert (Hnone : cleanupFn (run revision2
                    (earlier ++ Render tickets optimize :: later)) = None).
  { unfold run. rewrite fold_left_app. cbn [fold_left].
    assert (H0 : cleanupFn (step revision2 (fold_left (step revision2) earlier mounted)
                         (Render tickets optimize)) = None).
    { assert (Hc := run2_consistent earlier). unfold run in Hc.
      assert (Hs := step2_consistent (Render tickets optimize) Hc).
      destruct (fold_left (step revision2) earlier mounted) as [w cl aw].
      cbn [step rev_effect revision2].
      destruct Hc as (Hheld & Hlive & Hquiet). cbn [world cleanupFn] in *.
      assert (Hheld0 : held (run_cleanup revision2 (mkComponent w cl aw))).
      { unfold run_cleanup. cbn [cleanupFn world revision2 rev_cleanup].
        destruct cl as [r |]; [| exact Hheld].
        rewrite cleanup2_held by exact Hheld. reflexivity. }
      rewrite effect2_below by assumption. reflexivity. }
    revert H0.
    generalize (step revision2 (fold_left (step revision2) earlier mounted)
                  (Render tickets optimize)).
    induction later as [| e later IH]; intros c Hc; [exact Hc |].
    cbn [forallb] in Hlater. apply andb_prop in Hlater.
    destruct Hlater as [He Hrest]. cbn [fold_left]. apply IH; [exact Hrest |].
    destruct e as [ts o | request o | t |]; try discriminate; cbn [step].
    - destruct (lookup_run request (awaiting c)); [exact Hc | exact Hc].
    - destruct (existsb (Nat.eqb t) (timers (world c))); exact Hc.
    - reflexivity. }
  destruct (run2_consistent (earlier ++ Render tickets optimize :: later))
    as (_ & _ & Hquiet).
  destruct (Hquiet Hnone) as (Hm & Hf & Hl).
  unfold route_visuals. rewrite Hm. repeat split; assumption.
Qed.

(* ================================================================== *)
(** * Further properties *)
(* ================================================================== *)

(** ** More on the canonical ticket list *)

Section SortFilter.
Variable A : Type.
Variable positive : A -> A -> bool.
Variable p : A -> bool.
Hypothesis negtrans :
  forall a b c, positive a b = false -> positive b c = false ->
                positive a c = false.

Lemma insert_filter_out (x : A) (l : list A) :
  p x = false -> filter p (insert positive x l) = filter p l.
Proof.
  intros Hx. induction l as [| y r IH]; cbn [insert filter].
  - now rewrite Hx.
  - destruct (positive x y); cbn [filter]; [now rewrite IH |].
    now rewrite Hx.
Qed.

Lemma insert_head (x : A) (l : list A) :
  (forall z, In z l -> positive x z = false) -> insert positive x l = x :: l.
Proof.
  destruct l as [| y r]; [reflexivity |]. intros H. cbn [insert].
  now rewrite (H y (or_introl eq_refl)).
Qed.

Lemma insert_filter_in (x : A) (l : list A) :
  StronglySorted (fun a b => positive a b = false) l -> p x = true ->
  filter p (insert positive x l) = insert positive x (filter p l).
Proof.
  intros Hs Hx. induction Hs as [| y r Hs IH Hy]; cbn [insert filter].
  - now rewrite Hx.
  - rewrite Forall_forall in Hy.
    destruct (positive x y) eqn:Hxy.
    + cbn [filter]. destruct (p y); cbn [insert]; rewrite ?Hxy, IH; reflexivity.
    + cbn [filter]. rewrite Hx. symmetry. apply insert_head.
      intros z Hz.
      assert (Hz' : In z (y :: r)).
      { destruct (p y); [destruct Hz as [<- | Hz]; [now left | right] |
                         right];
          apply filter_In in Hz; tauto. }
      destruct Hz' as [<- | Hz']; [exact Hxy |].
      apply negtrans with (b := y); [exact Hxy | now apply Hy].
Qed.

Hypothesis asym : forall a b, positive a b = true -> positive b a = false.

(** Sorting and selecting commute. *)
Lemma Array_sort_filter (l : list A) :
  Array_sort positive (filter p l) = filter p (Array_sort positive l).
Proof.
  induction l as [| x l IH]; [reflexivity |].
  cbn [filter]. change (Array_sort positive (x :: l))
    with (insert positive x (Array_sort positive l)).
  destruct (p x) eqn:Hx.
  - change (Array_sort positive (x :: filter p l))
      with (insert positive x (Array_sort positive (filter p l))).
    rewrite IH. symmetry. apply insert_filter_in; [| exact Hx].
    apply Array_sort_sorted; assumption.
  - rewrite insert_filter_out by exact Hx. exact IH.
Qed.
End SortFilter.

Lemma filter_swap (A : Type) (p q : A -> bool) (l : list A) :
  filter p (filter q l) = filter q (filter p l).
Proof.
  induction l as [| x l IH]; [reflexivity |].
  cbn [filter]. destruct (p x) eqn:Hp, (q x) eqn:Hq; cbn [filter];
    rewrite ?Hp, ?Hq, IH; reflexivity.
Qed.

Lemma activeTickets_filter (getTime : string -> Z) (p : Ticket -> bool)
    (l : list Ticket) :
  activeTickets getTime (filter p l) = filter p (activeTickets getTime l).
Proof.
  unfold activeTickets. rewrite filter_swap. apply Array_sort_filter.
  - apply compareActive_negtrans.
  - apply compareActive_asym.
Qed.

Lemma sorted_filter (p : Ticket -> bool) (l : list Ticket) :
  sorted (filter p l) = filter p (sorted l).
Proof.
  unfold sorted. apply Array_sort_filter.
  - intros a b c. rewrite !Qpositive_ge. lra.
  - intros a b. rewrite Qpositive_lt, Qpositive_ge. lra.
Qed.

Lemma filter_all (A : Type) (p : A -> bool) (l : list A) :
  (forall a, In a l -> p a = true) -> filter p l = l.
Proof.
  induction l as [| x l IH]; intros H; [reflexivity |].
  cbn [filter]. rewrite (H x (or_introl eq_refl)), IH; [reflexivity |].
  intros a Ha. apply H. now right.
Qed.

Lemma has_id_false (x : string) (t : Ticket) :
  negb (has_id x t) = true <-> id t <> x.
Proof.
  unfold has_id. rewrite negb_true_iff.
  destruct (String.eqb_spec (id t) x); split; congruence.
Qed.

(** X1. A DELETE event leaves the tickets that stay in the order they had,
    on the map and in the panel: the map's active list and the panel's list
    after the event are the lists before it without the tickets of the
    deleted id. *)
Theorem delete_keeps_order (getTime : string -> Z) (d : Dashboard)
    (x : string) (res : QueryResult) :
  let d' := onChangeEvent (mkPayload DELETE (Some x)) res d in
  activeTickets getTime (tickets d')
    = filter (fun t => negb (has_id x t)) (activeTickets getTime (tickets d)) /\
  sorted (tickets d')
    = filter (fun t => negb (has_id x t)) (sorted (tickets d)).
Proof.
  cbv zeta. unfold onChangeEvent, setTickets. cbn [eventType old_id tickets].
  change (fun t => differs (id t) (Some x))
    with (fun t => negb (has_id x t)).
  split; [apply activeTickets_filter | apply sorted_filter].
Qed.

(** X2. The edge cases of a DELETE event: without an id in [payload.old]
    nothing is removed; an id that no ticket has removes nothing; deleting
    an id twice is deleting it once; two deletions can come in either
    order; and after the event no ticket of the list has the deleted id. *)
Theorem delete_edge_cases (d : Dashboard) (x y : string) (res : QueryResult) :
  let del o := onChangeEvent (mkPayload DELETE o) res in
  tickets (del None d) = tickets d /\
  ((forall t, In t (tickets d) -> id t <> x) ->
   tickets (del (Some x) d) = tickets d) /\
  del (Some x) (del (Some x) d) = del (Some x) d /\
  del (Some x) (del (Some y) d) = del (Some y) (del (Some x) d) /\
  (forall t, In t (tickets (del (Some x) d)) -> id t <> x) /\
  calls (del (Some x) d) = calls d.
Proof.
  cbv zeta. unfold onChangeEvent, setTickets.
  cbn [eventType old_id tickets calls].
  change (fun t => differs (id t) (Some x)) with (fun t => negb (has_id x t)).
  change (fun t => differs (id t) (Some y)) with (fun t => negb (has_id y t)).
  split; [| split; [| split; [| split; [| split]]]].
  - apply filter_all. reflexivity.
  - intros H. apply filter_all. intros t Ht. apply has_id_false, H, Ht.
  - f_equal. apply filter_all. intros t Ht. apply filter_In in Ht. tauto.
  - f_equal. apply filter_swap.
  - intros t Ht. apply filter_In in Ht. apply has_id_false. tauto.
  - reflexivity.
Qed.

Lemma filter_active_completed (x : string) (l : list Ticket) :
  filter (fun t => Status_eqb (status t) ACTIVE)
    (map (fun t => if String.eqb (id t) x then withStatus t COMPLETE else t) l)
  = filter (fun t => Status_eqb (status t) ACTIVE)
      (filter (fun t => negb (has_id x t)) l).
Proof.
  induction l as [| t l IH]; [reflexivity |].
  cbn [map filter]. unfold has_id at 1.
  destruct (String.eqb (id t) x); cbn [negb filter withStatus status Status_eqb];
    rewrite IH; reflexivity.
Qed.

(** X3. When a status update to COMPLETE succeeds, the tickets of that id
    leave the map's active list and the others keep their order there; the
    panel keeps every row in its place, with the new status on the rows of
    that id.  When an update to ACTIVE succeeds, every ticket of that id is
    on the map's active list. *)
Theorem completed_ticket_leaves_map (getTime : string -> Z) (d : Dashboard)
    (x : string) :
  let done := updateStatus (Some handleUpdate) x COMPLETE None d in
  let reopened := updateStatus (Some handleUpdate) x ACTIVE None d in
  activeTickets getTime (tickets done)
    = filter (fun t => negb (has_id x t)) (activeTickets getTime (tickets d)) /\
  sorted (tickets done)
    = map (fun t => if String.eqb (id t) x then withStatus t COMPLETE else t)
          (sorted (tickets d)) /\
  (forall t, In t (tickets d) -> id t = x ->
             In (withStatus t ACTIVE) (activeTickets getTime (tickets reopened))).
Proof.
  cbv zeta. unfold updateStatus, handleUpdate, setTickets, request.
  cbn [tickets calls]. split; [| split].
  - unfold activeTickets at 1. rewrite filter_active_completed, filter_swap.
    apply Array_sort_filter.
    + apply compareActive_negtrans.
    + apply compareActive_asym.
  - unfold sorted. apply Array_sort_map. intros a b.
    unfold compareScore, score.
    destruct (String.eqb (id a) x), (String.eqb (id b) x); reflexivity.
  - intros t Ht Hid. unfold activeTickets.
    eapply Permutation_in; [symmetry; apply Array_sort_permutation |].
    apply filter_In. split; [| reflexivity].
    apply in_map_iff. exists t. split; [| exact Ht].
    apply String.eqb_eq in Hid. now rewrite Hid.
Qed.

(** X4. Local status changes compose: a second change of the same id
    overrides the first; changes of different ids can come in either order;
    a change of an id that no ticket has changes nothing; and no change
    adds, removes or moves a ticket. *)
Theorem handleUpdate_composes (d : Dashboard) (x y : string) (s1 s2 : Status) :
  handleUpdate x s2 (handleUpdate x s1 d) = handleUpdate x s2 d /\
  (x <> y ->
   handleUpdate x s1 (handleUpdate y s2 d)
   = handleUpdate y s2 (handleUpdate x s1 d)) /\
  ((forall t, In t (tickets d) -> id t <> x) ->
   tickets (handleUpdate x s1 d) = tickets d) /\
  map id (tickets (handleUpdate x s1 d)) = map id (tickets d).
Proof.
  unfold handleUpdate, setTickets. cbn [tickets calls].
  split; [| split; [| split]].
  - f_equal. rewrite map_map. apply map_ext. intros t.
    destruct (String.eqb (id t) x) eqn:E; cbn [withStatus id]; rewrite E;
      reflexivity.
  - intros Hxy. f_equal. rewrite !map_map. apply map_ext. intros t.
    destruct (String.eqb_spec (id t) x) as [Ex | Ex],
             (String.eqb_spec (id t) y) as [Ey | Ey];
      cbn [withStatus id];
      repeat match goal with
      | |- context [String.eqb (id t) ?z] =>
          destruct (String.eqb_spec (id t) z); try congruence
      end.
  - intros H. rewrite <- (map_id (tickets d)) at 2. apply map_ext_in.
    intros t Ht. destruct (String.eqb_spec (id t) x); [| reflexivity].
    now elim (H t Ht).
  - rewrite map_map. apply map_ext. intros t.
    destruct (String.eqb (id t) x); reflexivity.
Qed.

(** X5. Loads are last-write-wins: after a series of loads the list is the
    rows of the last answer that had no error and had data (an empty array
    of rows included), or the list before them if there was none; every load
    sends one query. *)
Theorem refetches_last_write_wins (results : list QueryResult) (d : Dashboard) :
  tickets (refetches results d) = last_replacing results (tickets d) /\
  calls (refetches results d)
    = calls d ++ repeat SelectTickets (length results) /\
  (forall e rows, tickets (fetchTickets (mkResult rows (Some e)) d) = tickets d) /\
  tickets (fetchTickets (mkResult None None) d) = tickets d /\
  tickets (fetchTickets (mkResult (Some []) None) d) = [].
Proof.
  split; [| split; [| repeat split]].
  - revert d. induction results as [| res rest IH]; intros d; [reflexivity |].
    cbn [refetches fold_left last_replacing].
    change (fold_left (fun d0 res0 => fetchTickets res0 d0) rest
              (fetchTickets res d)) with (refetches rest (fetchTickets res d)).
    rewrite IH. f_equal. unfold fetchTickets, replacing.
    destruct (error res); [reflexivity |]. now destruct (data res).
  - revert d. induction results as [| res rest IH]; intros d.
    + cbn. now rewrite app_nil_r.
    + cbn [refetches fold_left length repeat].
      change (fold_left (fun d0 res0 => fetchTickets res0 d0) rest
                (fetchTickets res d)) with (refetches rest (fetchTickets res d)).
      rewrite IH.
      assert (H : calls (fetchTickets res d) = calls d ++ [SelectTickets]).
      { unfold fetchTickets. destruct (error res); [reflexivity |].
        now destruct (data res). }
      rewrite H, <- app_assoc. reflexivity.
Qed.

(** ** The second revision in time *)

Ltac unfold_route :=
  unfold RouteLine2.cleanup, RouteLine2.clearRouteLayers, RouteLine2.effect,
    RouteLine2.fetchOptimalRoute_start, RouteLine2.fetchOptimalRoute_resume,
    RouteLine2.catch_block, RouteLine2.still_active, RouteLine1.clearRoute,
    RouteLine1.effect, RouteLine1.cleanup, RouteLine1.fetchOptimalRoute_start,
    RouteLine1.fetchOptimalRoute_resume, RouteLine1.catch_block,
    async, request_route,
    draw_route, draw_fallback, stopLoading, clearTimeout, setTimeout, fetch,
    removeLayer, hasLayer, exec,
    try_catch, bind, ret, throw, return_, gets, modify, addTo_map,
    set_routePolylineRef, set_decoratorRef, set_isCalculatingRef,
    onLoadingChange in *.

Lemma nearestNeighbor_value (stops : list Coord) :
  stops <> [] ->
  exists route,
    nearestNeighbor stops = Value route /\ Permutation route stops /\
    hd_error route = hd_error stops.
Proof.
  destruct stops as [| first rest]; [congruence |]. intros _.
  destruct (@nn_loop_permutation (length rest) [] first rest (le_n _))
    as (route & Hrun & Hperm).
  exists (first :: route). split; [exact Hrun |].
  split; [now constructor | reflexivity].
Qed.

Lemma requested_permutation (stops : list Coord) (optimize : bool) :
  Permutation (requested stops optimize) stops /\
  hd_error (requested stops optimize) = hd_error stops.
Proof.
  unfold requested. destruct optimize; [| now split].
  destruct stops as [| first rest]; [now split |].
  destruct (@nearestNeighbor_value (first :: rest)) as (route & -> & Hp & Hh);
    [discriminate | now split].
Qed.

(** The request of a calculation. *)
Lemma request_route_sends (r : Run) (w : World) :
  coords r <> [] ->
  request_route r w
  = (Normal (length (fetches w)),
     mkWorld (map_layers w) (routePolylineRef w) (decoratorRef w)
       (isCalculatingRef w) (isCalculatingRoutes w) (next_id w) (timers w)
       (fetches w ++ [requested (coords r) (optimizeRoute r)])).
Proof.
  intros Hne. unfold request_route, requested.
  destruct (optimizeRoute r); [| reflexivity].
  destruct (nearestNeighbor_value Hne) as (route & -> & _). reflexivity.
Qed.

Lemma coordsOf_nonempty (tickets : list Ticket) :
  2 <= length tickets -> coordsOf tickets <> [].
Proof. destruct tickets; simpl; [lia | discriminate]. Qed.

Lemma effect2_starts (tickets : list Ticket) (optimize : bool) (w : World) :
  2 <= length tickets ->
  RouteLine2.effect tickets optimize w
  = (Normal (Some (mkRun (coordsOf tickets) optimize (next_id w)),
             Some (length (fetches w))),
     mkWorld (map_layers w) (routePolylineRef w) (decoratorRef w) true true
       (S (next_id w)) (timers w ++ [next_id w])
       (fetches w ++ [requested (coordsOf tickets) optimize])).
Proof.
  intros Hlen.
  destruct w as [layers p d flag loading n ts fs].
  pose proof (@request_route_sends (mkRun (coordsOf tickets) optimize n)
                (mkWorld layers p d true true (S n) (ts ++ [n]) fs)
                (coordsOf_nonempty tickets Hlen)) as Hreq.
  unfold RouteLine2.effect.
  destruct (Nat.ltb_spec (length tickets) 2); [lia |].
  unfold RouteLine2.fetchOptimalRoute_start, async, try_catch, bind,
    set_isCalculatingRef, onLoadingChange, setTimeout, modify, ret.
  cbn [map_layers routePolylineRef decoratorRef isCalculatingRef
       isCalculatingRoutes next_id timers fetches].
  rewrite Hreq. reflexivity.
Qed.

Lemma resume2_stale (r : Run) (o : FetchOutcome) (w : World) :
  isCalculatingRef w = false ->
  exec (RouteLine2.fetchOptimalRoute_resume r o) w = w.
Proof.
  intros Hflag. unfold RouteLine2.fetchOptimalRoute_resume.
  destruct (route_geometry o) as [lonlats |] eqn:Hgeo.
  - rewrite route_geometry_some with (lonlats := lonlats) by exact Hgeo.
    unfold_route. cbn. rewrite Hflag. reflexivity.
  - destruct (@route_geometry_none o Hgeo RouteLine2.still_active r)
      as [-> | ->];
      unfold_route; repeat (progress (cbn; rewrite ?Hflag)); reflexivity.
Qed.

Lemma resume2_live (r : Run) (o : FetchOutcome) (w : World) :
  isCalculatingRef w = true ->
  exec (RouteLine2.fetchOptimalRoute_resume r o) w
  = match route_geometry o with
    | Some lonlats =>
      let p := mkLayer (next_id w)
                 (Polyline (map swap lonlats) (routeOptions (optimizeRoute r))) in
      let d := mkLayer (S (next_id w))
                 (Decorator (next_id w) (routeColor (optimizeRoute r))) in
      mkWorld (map_layers w ++ [p] ++ [d]) (Some p) (Some d) false false
        (S (S (next_id w))) (timers w) (fetches w)
    | None =>
      let p := mkLayer (next_id w)
                 (Polyline (map swap (coords r)) fallbackOptions) in
      mkWorld (map_layers w ++ [p]) (Some p) (decoratorRef w) false false
        (S (next_id w)) (timers w) (fetches w)
    end.
Proof.
  intros Hflag. unfold RouteLine2.fetchOptimalRoute_resume.
  destruct w as [layers p d flag loading n ts fs]. cbn in Hflag. subst flag.
  destruct (route_geometry o) as [lonlats |] eqn:Hgeo.
  - rewrite route_geometry_some with (lonlats := lonlats) by exact Hgeo.
    unfold_route. cbn. rewrite <- app_assoc. reflexivity.
  - destruct (@route_geometry_none o Hgeo RouteLine2.still_active r)
      as [-> | ->]; unfold_route; repeat (progress cbn); reflexivity.
Qed.

Lemma filter_one (f : nat -> bool) (ts : list nat) (a : nat) :
  ts = [] \/ ts = [a] -> filter f ts = [] \/ filter f ts = [a].
Proof.
  intros [-> | ->]; cbn; [now left |]. destruct (f a); [now right | now left].
Qed.

Lemma cleanup2_resets (c : Component) :
  orderly c ->
  run_cleanup revision2 c
  = mkWorld [] None None false false (next_id (world c)) []
      (fetches (world c)).
Proof.
  destruct c as [w cl aw]. unfold orderly, consistent, pending_timer.
  cbn [world cleanupFn].
  intros ((Hheld & Hlive & Hquiet) & _ & _ & Hm & Ht).
  unfold run_cleanup. cbn [cleanupFn world revision2 rev_cleanup].
  destruct cl as [r |].
  - rewrite cleanup2_held by exact Hheld. f_equal.
    destruct Ht as [-> | ->]; cbn; [reflexivity |].
    now rewrite Nat.eqb_refl.
  - destruct (Hquiet eq_refl) as (Hmap & Hf & Hl).
    destruct (held_empty Hheld Hmap) as [Hp Hd].
    destruct w as [layers p d flag loading n ts fs]. cbn in *.
    now subst.
Qed.

Lemma step2_orderly (c : Component) (e : Event) :
  orderly c -> orderly (step revision2 c e).
Proof.
  intros Hord. split; [apply step2_consistent, Hord |].
  pose proof (cleanup2_resets Hord) as Hreset.
  destruct c as [w cl aw].
  destruct Hord as (Hcons & Hp & Hd & Hm & Ht).
  unfold pending_timer in *. cbn [world cleanupFn] in *.
  destruct e as [tickets optimize | request o | t |];
    cbn [step awaiting world cleanupFn].
  - rewrite Hreset. cbn [rev_effect revision2].
    destruct (Nat.lt_ge_cases (length tickets) 2) as [Hlt | Hge].
    + rewrite effect2_below; [| exact Hlt | reflexivity].
      cbn. repeat split; discriminate.
    + rewrite effect2_starts by exact Hge.
      cbn. repeat split; try discriminate. now right.
  - destruct (lookup_run request aw) as [r |];
      cbn [world cleanupFn rev_resume revision2];
      [| repeat split; assumption].
    assert (Htimers : forall w1, timers w1 = timers w ->
              match cl with
              | Some r0 =>
                timers (exec (clearTimeout (timeoutId r)) w1) = [] \/
                timers (exec (clearTimeout (timeoutId r)) w1) = [timeoutId r0]
              | None => timers (exec (clearTimeout (timeoutId r)) w1) = []
              end).
    { intros w1 Hw1. unfold exec, clearTimeout, modify. cbn. rewrite Hw1.
      destruct cl as [r0 |]; [now apply filter_one | now rewrite Ht]. }
    destruct (isCalculatingRef w) eqn:Hflag.
    + rewrite resume2_live by exact Hflag.
      destruct (route_geometry o) as [lonlats |]; cbv zeta.
      * split; [| split; [| split]]; [| | reflexivity |].
        -- intros l. cbn. intros [= <-]. reflexivity.
        -- intros l. cbn. intros [= <-]. reflexivity.
        -- apply Htimers. reflexivity.
      * split; [| split; [| split]]; [| | reflexivity |].
        -- intros l. cbn. intros [= <-]. reflexivity.
        -- intros l. cbn. apply Hd.
        -- apply Htimers. reflexivity.
    + rewrite resume2_stale by exact Hflag.
      split; [| split; [| split]].
      * intros l. cbn. apply Hp.
      * intros l. cbn. apply Hd.
      * cbn. congruence.
      * apply Htimers. reflexivity.
  - destruct (existsb (Nat.eqb t) (timers w)); cbn [world cleanupFn];
      [| repeat split; assumption].
    split; [| split; [| split]].
    + intros l. cbn. apply Hp.
    + intros l. cbn. apply Hd.
    + reflexivity.
    + unfold exec, clearTimeout, stopLoading, bind, modify,
        set_isCalculatingRef, onLoadingChange. cbn.
      destruct cl as [r0 |]; [now apply filter_one | now rewrite Ht].
  - rewrite Hreset. cbn. repeat split; discriminate.
Qed.

Lemma run2_orderly (events : list Event) : orderly (run revision2 events).
Proof.
  unfold run.
  assert (H : orderly mounted).
  { split; [| repeat split; discriminate]. repeat split; discriminate. }
  revert H. generalize mounted.
  induction events as [| e events IH]; intros c Hc; [exact Hc |].
  apply IH, step2_orderly, Hc.
Qed.

Lemma clearRoute_cleared (w : World) :
  RouteLine1.clearRoute w = (Normal tt, cleared w).
Proof.
  destruct w as [layers p d flag loading n ts fs].
  unfold RouteLine1.clearRoute, cleared, without,
    removeLayer, set_routePolylineRef, set_decoratorRef,
    bind, gets, ret, modify.
  destruct p, d; reflexivity.
Qed.

Lemma filter_absent (l : Layer) (layers : list Layer) :
  existsb (same_layer l) layers = false ->
  filter (fun x => negb (same_layer l x)) layers = layers.
Proof.
  induction layers as [| x r IH]; [reflexivity |].
  cbn [existsb filter]. intros H. apply orb_false_elim in H.
  destruct H as [Hx Hr]. rewrite Hx. cbn [negb]. now rewrite IH.
Qed.

Lemma clearRouteLayers_cleared (w : World) :
  RouteLine2.clearRouteLayers w = (Normal tt, cleared w).
Proof.
  destruct w as [layers p d flag loading n ts fs].
  unfold RouteLine2.clearRouteLayers, cleared, without,
    removeLayer, hasLayer, set_routePolylineRef, set_decoratorRef,
    bind, gets, ret, modify.
  destruct p as [p |], d as [d |]; cbn;
    repeat match goal with
    | |- context [existsb ?f ?L] => destruct (existsb f L) eqn:?; cbn
    end;
    repeat match goal with
    | H : existsb (same_layer ?l) ?L = false |- _ =>
        rewrite (@filter_absent l L H); clear H
    end; reflexivity.
Qed.

Lemma cleared_held (w : World) : held w -> map_layers (cleared w) = [].
Proof.
  destruct w as [layers p d flag loading n ts fs]. unfold held, cleared. cbn.
  intros ->. unfold without, same_layer.
  destruct p as [p |], d as [d |];
    repeat (progress (cbn; rewrite ?Nat.eqb_refl)); try reflexivity.
  destruct (Nat.eqb (leaflet_id p) (leaflet_id d)) eqn:E;
    repeat (progress (cbn; rewrite ?Nat.eqb_refl)); reflexivity.
Qed.

(** ** The effect of [RouteLine], in both revisions *)

Lemma effect1_quiet (tickets : list Ticket) (optimize : bool) (w : World) :
  length tickets < 2 ->
  RouteLine1.effect tickets optimize w
  = (Normal (None, None),
     mkWorld (map_layers (cleared w)) None None false false (next_id w)
       (timers w) (fetches w)).
Proof.
  intros Hlen. unfold RouteLine1.effect, bind at 1.
  rewrite clearRoute_cleared.
  destruct (Nat.ltb_spec (length tickets) 2); [reflexivity | lia].
Qed.

Lemma effect2_quiet (tickets : list Ticket) (optimize : bool) (w : World) :
  length tickets < 2 ->
  RouteLine2.effect tickets optimize w
  = (Normal (None, None),
     mkWorld (map_layers (cleared w)) None None false false (next_id w)
       (timers w) (fetches w)).
Proof.
  intros Hlen. unfold RouteLine2.effect.
  destruct (Nat.ltb_spec (length tickets) 2); [| lia].
  unfold bind at 1. rewrite clearRouteLayers_cleared. reflexivity.
Qed.

Lemma effect1_skips (tickets : list Ticket) (optimize : bool) (w : World) :
  2 <= length tickets -> isCalculatingRef w = true ->
  RouteLine1.effect tickets optimize w = (Normal (None, None), cleared w).
Proof.
  intros Hlen Hflag. unfold RouteLine1.effect, bind at 1.
  rewrite clearRoute_cleared.
  destruct (Nat.ltb_spec (length tickets) 2); [lia |].
  unfold bind, gets. cbn [isCalculatingRef cleared]. rewrite Hflag.
  reflexivity.
Qed.

Lemma effect1_starts (tickets : list Ticket) (optimize : bool) (w : World) :
  2 <= length tickets -> isCalculatingRef w = false ->
  RouteLine1.effect tickets optimize w
  = (Normal (Some (mkRun (coordsOf tickets) optimize (next_id w)),
             Some (length (fetches w))),
     mkWorld (map_layers (cleared w)) None None true true
       (S (next_id w)) (timers w ++ [next_id w])
       (fetches w ++ [requested (coordsOf tickets) optimize])).
Proof.
  intros Hlen Hflag.
  pose proof (@request_route_sends (mkRun (coordsOf tickets) optimize (next_id w))
                (mkWorld (map_layers (cleared w)) None None true true
                   (S (next_id w)) (timers w ++ [next_id w]) (fetches w))
                (coordsOf_nonempty tickets Hlen)) as Hreq.
  destruct w as [layers p d flag loading n ts fs]. cbn in Hflag. subst flag.
  unfold RouteLine1.effect.
  destruct (Nat.ltb_spec (length tickets) 2); [lia |].
  unfold RouteLine1.fetchOptimalRoute_start, RouteLine1.clearRoute,
    RouteLine1.catch_block, async, try_catch, cleared, without,
    removeLayer, set_routePolylineRef, set_decoratorRef,
    set_isCalculatingRef, onLoadingChange, setTimeout, clearTimeout,
    bind, gets, ret, modify in *.
  destruct p as [p |], d as [d |];
    cbn [map_layers routePolylineRef decoratorRef isCalculatingRef
         isCalculatingRoutes next_id timers fetches coords optimizeRoute] in *;
    rewrite Hreq; reflexivity.
Qed.

Lemma resume1_draws (r : Run) (o : FetchOutcome) (w : World) :
  exec (RouteLine1.fetchOptimalRoute_resume r o) w
  = match route_geometry o with
    | Some lonlats =>
      let p := mkLayer (next_id w)
                 (Polyline (map swap lonlats) (routeOptions (optimizeRoute r))) in
      let d := mkLayer (S (next_id w))
                 (Decorator (next_id w) (routeColor (optimizeRoute r))) in
      mkWorld (map_layers w ++ [p] ++ [d]) (Some p) (Some d) false false
        (S (S (next_id w))) (timers w) (fetches w)
    | None =>
      let p := mkLayer (next_id w)
                 (Polyline (map swap (coords r)) fallbackOptions) in
      mkWorld (map_layers w ++ [p]) (Some p) (decoratorRef w) false false
        (S (next_id w)) (timers w) (fetches w)
    end.
Proof.
  unfold RouteLine1.fetchOptimalRoute_resume.
  destruct w as [layers p d flag loading n ts fs].
  destruct (route_geometry o) as [lonlats |] eqn:Hgeo.
  - rewrite route_geometry_some with (lonlats := lonlats) by exact Hgeo.
    unfold_route. cbn. rewrite <- app_assoc. reflexivity.
  - destruct (@route_geometry_none o Hgeo (ret tt) r) as [-> | ->];
      unfold_route; repeat (progress cbn); reflexivity.
Qed.

Lemma cleanup1_cleared (r : Run) (w : World) :
  exec (RouteLine1.cleanup r) w
  = mkWorld (map_layers (cleared w)) None None false false (next_id w)
      (timers w) (fetches w).
Proof.
  destruct w as [layers p d flag loading n ts fs].
  unfold RouteLine1.cleanup, RouteLine1.clearRoute, stopLoading, exec,
    cleared, without, removeLayer, set_routePolylineRef, set_decoratorRef,
    set_isCalculatingRef, onLoadingChange, bind, gets, ret, modify.
  destruct p, d; reflexivity.
Qed.

Lemma step1_mirrors (c : Component) (e : Event) :
  isCalculatingRoutes (world c) = isCalculatingRef (world c) ->
  isCalculatingRoutes (world (step revision1 c e))
  = isCalculatingRef (world (step revision1 c e)).
Proof.
  destruct c as [w cl aw]. cbn [world]. intros Hm.
  assert (Hm0 : isCalculatingRoutes (run_cleanup revision1 (mkComponent w cl aw))
                = isCalculatingRef (run_cleanup revision1 (mkComponent w cl aw))).
  { unfold run_cleanup. cbn [cleanupFn world revision1 rev_cleanup].
    destruct cl as [r |]; [| exact Hm]. now rewrite cleanup1_cleared. }
  destruct e as [tickets optimize | request o | t |];
    cbn [step awaiting world cleanupFn rev_effect rev_resume revision1].
  - set (w0 := run_cleanup revision1 (mkComponent w cl aw)) in *.
    destruct (Nat.lt_ge_cases (length tickets) 2) as [Hlt | Hge].
    + rewrite effect1_quiet by exact Hlt. reflexivity.
    + destruct (isCalculatingRef w0) eqn:Hflag.
      * rewrite effect1_skips by assumption. cbn. congruence.
      * rewrite effect1_starts by assumption. reflexivity.
  - destruct (lookup_run request aw) as [r |]; [| exact Hm].
    cbn [world]. rewrite resume1_draws.
    destruct (route_geometry o); reflexivity.
  - destruct (existsb (Nat.eqb t) (timers w)); [reflexivity | exact Hm].
  - exact Hm0.
Qed.

Lemma run1_mirrors (events : list Event) :
  isCalculatingRoutes (world (run revision1 events))
  = isCalculatingRef (world (run revision1 events)).
Proof.
  unfold run.
  assert (H : isCalculatingRoutes (world mounted)
              = isCalculatingRef (world mounted)) by reflexivity.
  revert H. generalize mounted.
  induction events as [| e events IH]; intros c Hc; [exact Hc |].
  apply IH, step1_mirrors, Hc.
Qed.

(** X6. With fewer than two tickets the effect of either revision removes
    the layers the two refs hold, empties the refs, clears the calculating
    flag and the loading indicator, sends no request, sets no timer and
    returns no cleanup; when the refs hold every layer of the map, the map
    is left without layers. *)
Theorem effect_below_threshold (tickets : list Ticket) (optimize : bool)
    (w : World) :
  length tickets < 2 ->
  let quiet :=
    mkWorld (without (decoratorRef w) (without (routePolylineRef w) (map_layers w)))
      None None false false (next_id w) (timers w) (fetches w) in
  RouteLine1.effect tickets optimize w = (Normal (None, None), quiet) /\
  RouteLine2.effect tickets optimize w = (Normal (None, None), quiet) /\
  (held w -> map_layers quiet = []).
Proof.
  intros Hlen. cbv zeta. split; [| split].
  - now apply effect1_quiet.
  - now apply effect2_quiet.
  - apply cleared_held.
Qed.

Lemma effect_below_threshold_witness :
  let w := world (run revision1 [Render [stopA; stopB] false;
                                 Settle 0 (ok_response geometryAB)]) in
  RouteLine1.effect [stopA] false w
    = (Normal (None, None),
       mkWorld [] None None false false (next_id w) (timers w) (fetches w)) /\
  RouteLine2.effect [stopA] false w
    = (Normal (None, None),
       mkWorld [] None None false false (next_id w) (timers w) (fetches w)).
Proof.
  cbv zeta.
  destruct (@effect_below_threshold [stopA] false
              (world (run revision1 [Render [stopA; stopB] false;
                                     Settle 0 (ok_response geometryAB)])))
    as (H1 & H2 & _).
  - cbn. lia.
  - split; [exact H1 | exact H2].
Defined.

(** X7. With two or more tickets the effect starts one calculation: it sends
    one request, which carries the stops of the tickets, in their order
    when [optimizeRoute] is off and as a permutation that keeps the first
    stop when it is on; it sets the calculating flag, the loading indicator
    and one timer, and returns a cleanup.  The second revision does so from
    every state and leaves the map as it is; the first revision clears the
    route first, and when [isCalculatingRef] is already set it stops there:
    no request, no timer, no cleanup. *)
Theorem effect_starts_calculation (tickets : list Ticket) (optimize : bool)
    (w : World) :
  2 <= length tickets ->
  let r := mkRun (coordsOf tickets) optimize (next_id w) in
  let route := requested (coordsOf tickets) optimize in
  let cleared_layers :=
    without (decoratorRef w) (without (routePolylineRef w) (map_layers w)) in
  Permutation route (coordsOf tickets) /\
  hd_error route = hd_error (coordsOf tickets) /\
  (optimize = false -> route = coordsOf tickets) /\
  RouteLine2.effect tickets optimize w
  = (Normal (Some r, Some (length (fetches w))),
     mkWorld (map_layers w) (routePolylineRef w) (decoratorRef w) true true
       (S (next_id w)) (timers w ++ [next_id w]) (fetches w ++ [route])) /\
  (isCalculatingRef w = false ->
   RouteLine1.effect tickets optimize w
   = (Normal (Some r, Some (length (fetches w))),
      mkWorld cleared_layers None None true true
        (S (next_id w)) (timers w ++ [next_id w]) (fetches w ++ [route]))) /\
  (isCalculatingRef w = true ->
   RouteLine1.effect tickets optimize w
   = (Normal (None, None),
      mkWorld cleared_layers None None true (isCalculatingRoutes w)
        (next_id w) (timers w) (fetches w))).
Proof.
  intros Hlen. cbv zeta.
  destruct (requested_permutation (coordsOf tickets) optimize) as [Hp Hh].
  split; [exact Hp |]. split; [exact Hh |].
  split; [now intros -> |].
  split; [now apply effect2_starts |]. split.
  - intros Hflag. now apply effect1_starts.
  - intros Hflag. rewrite effect1_skips by assumption.
    unfold cleared. now rewrite Hflag.
Qed.

Lemma effect_starts_calculation_witness :
  RouteLine2.effect [stopA; stopB; stopC] true initial
  = (Normal (Some (mkRun (coordsOf [stopA; stopB; stopC]) true 0), Some 0),
     mkWorld [] None None true true 1 [0]
       [requested (coordsOf [stopA; stopB; stopC]) true]) /\
  Permutation (requested (coordsOf [stopA; stopB; stopC]) true)
    (coordsOf [stopA; stopB; stopC]).
Proof.
  destruct (@effect_starts_calculation [stopA; stopB; stopC] true initial)
    as (Hp & _ & _ & H2 & _).
  - cbn. lia.
  - split; [exact H2 | exact Hp].
Defined.

(** X8. In the second revision, whatever has happened to the component,
    every layer on the map is held by one of the two refs, at most one route
    polyline is on the map, the map is empty while a calculation is marked
    as running, the loading indicator shows what [isCalculatingRef] says,
    and at most one timer is pending. *)
Theorem revision2_one_route (events : list Event) :
  let w := world (run revision2 events) in
  held w /\
  length (route_visuals w) <= 1 /\
  (forall l, In l (route_visuals w) -> routePolylineRef w = Some l) /\
  (isCalculatingRef w = true -> map_layers w = []) /\
  isCalculatingRoutes w = isCalculatingRef w /\
  length (timers w) <= 1.
Proof.
  cbv zeta.
  destruct (run2_orderly events) as ((Hheld & Hlive & _) & Hp & Hd & Hm & Ht).
  unfold pending_timer in Ht.
  destruct (run revision2 events) as [w cl aw]. cbn [world cleanupFn] in *.
  assert (Hvis : route_visuals w
                 = match routePolylineRef w with Some l => [l] | None => [] end).
  { unfold route_visuals. rewrite Hheld.
    destruct (routePolylineRef w) as [p |], (decoratorRef w) as [d |]; cbn;
      rewrite ?(Hp p eq_refl), ?(Hd d eq_refl); reflexivity. }
  split; [exact Hheld |]. split; [| split; [| split; [| split]]].
  - rewrite Hvis. destruct (routePolylineRef w); cbn; lia.
  - intros l. rewrite Hvis. destruct (routePolylineRef w); cbn; [| tauto].
    intros [<- | []]. reflexivity.
  - exact Hlive.
  - exact Hm.
  - destruct cl; [destruct Ht as [-> | ->] | rewrite Ht]; cbn; lia.
Qed.

Lemma quiet_step (c : Component) (e : Event) :
  orderly c -> cleanupFn c = None -> is_render e = false ->
  cleanupFn (step revision2 c e) = None /\
  fetches (world (step revision2 c e)) = fetches (world c).
Proof.
  intros Hord Hnone He.
  destruct Hord as ((_ & _ & Hquiet) & _).
  destruct (Hquiet Hnone) as (_ & Hflag & _).
  destruct c as [w cl aw]. cbn [world cleanupFn] in *. subst cl.
  destruct e as [tickets optimize | request o | t |]; try discriminate;
    cbn [step awaiting world cleanupFn rev_resume revision2].
  - destruct (lookup_run request aw) as [r |]; cbn [world cleanupFn];
      [| now split].
    rewrite resume2_stale by exact Hflag. now split.
  - destruct (existsb (Nat.eqb t) (timers w)); now split.
  - now split.
Qed.

(** X9. In the second revision, once a render with fewer than two stops or
    the unmounting has happened, and until the next render, the map has no
    layer, the loading indicator is off, no timer is pending and no request
    is sent, whatever settles or fires. *)
Theorem revision2_quiet_after_end (earlier later : list Event) (e : Event) :
  ends_routes e = true ->
  forallb (fun e' => negb (is_render e')) later = true ->
  let c := run revision2 (earlier ++ e :: later) in
  map_layers (world c) = [] /\
  isCalculatingRoutes (world c) = false /\
  timers (world c) = [] /\
  fetches (world c) = fetches (world (run revision2 earlier)).
Proof.
  intros He Hlater. cbv zeta.
  assert (Hfirst : cleanupFn (run revision2 (earlier ++ [e])) = None /\
                   fetches (world (run revision2 (earlier ++ [e])))
                   = fetches (world (run revision2 earlier))).
  { unfold run. rewrite fold_left_app. cbn [fold_left].
    pose proof (run2_orderly earlier) as Hord. unfold run in Hord.
    pose proof (cleanup2_resets Hord) as Hreset.
    destruct (fold_left (step revision2) earlier mounted) as [w cl aw].
    destruct e as [tickets optimize | request o | t |]; try discriminate;
      cbn [step].
    - cbn [ends_routes] in He. apply Nat.ltb_lt in He.
      rewrite Hreset. cbn [rev_effect revision2].
      rewrite effect2_below; [| exact He | reflexivity]. now split.
    - rewrite Hreset. now split. }
  assert (Hall : cleanupFn (run revision2 (earlier ++ e :: later)) = None /\
                 fetches (world (run revision2 (earlier ++ e :: later)))
                 = fetches (world (run revision2 earlier))).
  { replace (earlier ++ e :: later) with ((earlier ++ [e]) ++ later)
      by (rewrite <- app_assoc; reflexivity).
    destruct Hfirst as [Hnone Hf]. rewrite <- Hf.
    pose proof (run2_orderly (earlier ++ [e])) as Hord.
    unfold run in *. rewrite fold_left_app.
    revert Hnone Hord.
    generalize (fold_left (step revision2) (earlier ++ [e]) mounted).
    induction later as [| e' later IH]; intros c Hnone Hord; [now split |].
    cbn [forallb] in Hlater. apply andb_prop in Hlater.
    destruct Hlater as [He' Hrest]. apply negb_true_iff in He'.
    destruct (@quiet_step c e' Hord Hnone He') as [Hn' Hf'].
    cbn [fold_left].
    destruct (IH Hrest (step revision2 c e') Hn' (@step2_orderly c e' Hord))
      as [Hn'' Hf''].
    split; [exact Hn'' | congruence]. }
  destruct Hall as [Hnone Hf].
  destruct (run2_orderly (earlier ++ e :: later))
    as ((_ & _ & Hquiet) & _ & _ & _ & Ht).
  unfold pending_timer in Ht. rewrite Hnone in Ht.
  destruct (Hquiet Hnone) as (Hm & _ & Hl).
  repeat split; assumption.
Qed.

Lemma revision2_quiet_after_end_witness :
  let c := run revision2 [Render [stopA; stopB] false; Render [stopA] false;
                          Settle 0 (ok_response geometryAB)] in
  map_layers (world c) = [] /\
  isCalculatingRoutes (world c) = false /\
  timers (world c) = [] /\
  fetches (world c)
  = fetches (world (run revision2 [Render [stopA; stopB] false])).
Proof.
  apply (@revision2_quiet_after_end [Render [stopA; stopB] false]
           [Settle 0 (ok_response geometryAB)] (Render [stopA] false));
    reflexivity.
Defined.

(** X10. In the second revision the 15-second timer abandons the
    calculation: when a pending timer fires, the calculating flag and the
    loading indicator are cleared and the timer is gone, and a response
    that settles afterwards, whatever it is, leaves the map, the refs and
    the indicator as they are. *)
Theorem timeout_abandons_request (c : Component) (t : nat) :
  existsb (Nat.eqb t) (timers (world c)) = true ->
  let c1 := step revision2 c (TimerFires t) in
  isCalculatingRef (world c1) = false /\
  isCalculatingRoutes (world c1) = false /\
  ~ In t (timers (world c1)) /\
  map_layers (world c1) = map_layers (world c) /\
  (forall request o,
     let c2 := step revision2 c1 (Settle request o) in
     map_layers (world c2) = map_layers (world c1) /\
     routePolylineRef (world c2) = routePolylineRef (world c1) /\
     decoratorRef (world c2) = decoratorRef (world c1) /\
     isCalculatingRoutes (world c2) = false).
Proof.
  intros Hpending. cbv zeta. destruct c as [w cl aw]. cbn [world] in *.
  cbn [step world]. rewrite Hpending. cbn [world awaiting].
  assert (Hw1 : exec (clearTimeout t ;; stopLoading) w
                = mkWorld (map_layers w) (routePolylineRef w) (decoratorRef w)
                    false false (next_id w)
                    (filter (fun t' => negb (Nat.eqb t' t)) (timers w))
                    (fetches w)) by reflexivity.
  rewrite Hw1. cbn [isCalculatingRef isCalculatingRoutes timers map_layers].
  split; [reflexivity |]. split; [reflexivity |]. split; [| split].
  - intros Hin. apply filter_In in Hin. destruct Hin as [_ Hneq].
    rewrite Nat.eqb_refl in Hneq. discriminate.
  - reflexivity.
  - intros request o. cbn [step awaiting world].
    destruct (lookup_run request aw) as [r |];
      cbn [world rev_resume revision2]; [| repeat split].
    rewrite resume2_stale by reflexivity. repeat split.
Qed.

Lemma timeout_abandons_request_witness :
  let c1 := step revision2 (run revision2 [Render [stopA; stopB] false])
              (TimerFires 0) in
  let c2 := step revision2 c1 (Settle 0 (ok_response geometryAB)) in
  isCalculatingRoutes (world c1) = false /\
  map_layers (world c2) = map_layers (world c1).
Proof.
  cbv zeta.
  destruct (@timeout_abandons_request
              (run revision2 [Render [stopA; stopB] false]) 0 eq_refl)
    as (_ & Hl & _ & _ & Hlate).
  split; [exact Hl |]. apply (Hlate 0 (ok_response geometryAB)).
Defined.

(** X11. In both revisions, whatever has happened to the component, the
    loading indicator shows exactly what [isCalculatingRef] says. *)
Theorem loading_mirrors_flag (events : list Event) :
  isCalculatingRoutes (world (run revision1 events))
  = isCalculatingRef (world (run revision1 events)) /\
  isCalculatingRoutes (world (run revision2 events))
  = isCalculatingRef (world (run revision2 events)).
Proof.
  split; [apply run1_mirrors |].
  now destruct (run2_orderly events) as (_ & _ & _ & Hm & _).
Qed.

(** X12. In the first revision a settled request always draws, whatever
    the state of the component: a response with code "Ok" and a first route
    with coordinates adds the route polyline and its decorator, any other
    outcome adds the fallback polyline through the stops of the run; the
    layers already on the map stay, the refs move to the new layers (the
    decorator ref stays on a fallback), and the calculating flag and the
    loading indicator are cleared. *)
Theorem revision1_always_draws (r : Run) (o : FetchOutcome) (w : World) :
  exec (RouteLine1.fetchOptimalRoute_resume r o) w
  = match route_geometry o with
    | Some lonlats =>
      let p := mkLayer (next_id w)
                 (Polyline (map swap lonlats) (routeOptions (optimizeRoute r))) in
      let d := mkLayer (S (next_id w))
                 (Decorator (next_id w) (routeColor (optimizeRoute r))) in
      mkWorld (map_layers w ++ [p] ++ [d]) (Some p) (Some d) false false
        (S (S (next_id w))) (timers w) (fetches w)
    | None =>
      let p := mkLayer (next_id w)
                 (Polyline (map swap (coords r)) fallbackOptions) in
      mkWorld (map_layers w ++ [p]) (Some p) (decoratorRef w) false false
        (S (next_id w)) (timers w) (fetches w)
    end.
Proof. apply resume1_draws. Qed.

(** X13. In the second revision at most one response is committed per
    calculation: a settled request changes nothing when [isCalculatingRef]
    is off; when it is on, the request draws and turns it off; so a second
    response, of whichever run, after a first one changes nothing. *)
Theorem revision2_commits_once (r1 r2 : Run) (o1 o2 : FetchOutcome) (w : World) :
  let w1 := exec (RouteLine2.fetchOptimalRoute_resume r1 o1) w in
  isCalculatingRef w1 = false /\
  (isCalculatingRef w = false -> w1 = w) /\
  (isCalculatingRef w = true ->
   exists line, routePolylineRef w1 = Some line /\
                map_layers w1 = map_layers w ++ line ::
                  match route_geometry o1 with
                  | Some _ => match decoratorRef w1 with
                              | Some d => [d]
                              | None => []
                              end
                  | None => []
                  end) /\
  exec (RouteLine2.fetchOptimalRoute_resume r2 o2) w1 = w1.
Proof.
  cbv zeta.
  assert (Hoff : isCalculatingRef
                   (exec (RouteLine2.fetchOptimalRoute_resume r1 o1) w) = false).
  { destruct (isCalculatingRef w) eqn:Hflag.
    - rewrite resume2_live by exact Hflag.
      destruct (route_geometry o1); reflexivity.
    - rewrite resume2_stale by exact Hflag. exact Hflag. }
  split; [exact Hoff |]. split; [| split].
  - intros Hflag. now apply resume2_stale.
  - intros Hflag. rewrite resume2_live by exact Hflag.
    destruct (route_geometry o1); cbv zeta; eexists; split; reflexivity.
  - now apply resume2_stale.
Qed.

Lemma map_index_map (A B C : Type) (f : A -> nat -> B) (g : B -> C)
    (h : A -> C) (l : list A) (index : nat) :
  (forall x i, g (f x i) = h x) ->
  map g (map_index f l index) = map h l.
Proof.
  intros H. revert index. induction l as [| x l IH]; intros index;
    [reflexivity |].
  cbn [map_index map]. now rewrite H, IH.
Qed.

Lemma map_index_numbers (A B : Type) (f : A -> nat -> B) (g : B -> nat)
    (l : list A) (index : nat) :
  (forall x i, g (f x i) = i + 1) ->
  map g (map_index f l index) = seq (index + 1) (length l).
Proof.
  intros H. revert index. induction l as [| x l IH]; intros index;
    [reflexivity |].
  cbn [map_index map length seq]. rewrite H, IH. reflexivity.
Qed.

(** X14. The markers of the map are numbered 1, 2, ... in the order of the
    active tickets, one marker per ticket, keyed by its id and placed at
    its (lat, lon); in the severity mode the route request carries the
    stops in the order of the marker numbers, and the fallback polyline of
    a calculation started on these tickets runs through the markers in the
    order of their numbers, in either mode. *)
Theorem markers_follow_order (stops : list Ticket) (optimize : bool)
    (t : nat) (w : World) :
  let r := mkRun (coordsOf stops) optimize t in
  map icon_number (markers stops) = seq 1 (length stops) /\
  map key (markers stops) = map id stops /\
  map icon_color (markers stops)
    = map (fun s => severityColors (severity (pothole_metadata s))) stops /\
  requested (coordsOf stops) false = map swap (map position (markers stops)) /\
  (exists line,
     routePolylineRef (exec (draw_fallback r) w) = Some line /\
     In line (map_layers (exec (draw_fallback r) w)) /\
     points line = map position (markers stops)).
Proof.
  cbv zeta. unfold markers.
  split; [| split; [| split; [| split]]].
  - now apply map_index_numbers.
  - now apply map_index_map.
  - now apply map_index_map.
  - cbn [requested]. rewrite map_index_map
      with (h := fun s => (latitude (pothole_metadata s),
                           longitude (pothole_metadata s)))
      by reflexivity.
    unfold coordsOf. rewrite map_map. apply map_ext. reflexivity.
  - eexists. unfold_route. cbn. split; [reflexivity |]. split.
    + apply in_or_app. right. now left.
    + cbn. rewrite map_index_map
        with (h := fun s => (latitude (pothole_metadata s),
                             longitude (pothole_metadata s)))
        by reflexivity.
      unfold coordsOf. rewrite map_map. apply map_ext. reflexivity.
Qed.

(** X15. The map theme: choosing the name of one of the four themes makes
    that theme the current one, choosing any other name leaves the current
    theme as it is, and after any series of choices the current theme is
    one of the four. *)
Theorem theme_selection (a0 a1 a2 a3 : string) (choices : list string)
    (current : Theme) (themeName : string) :
  let themes := mapThemes a0 a1 a2 a3 in
  let change := handleThemeChange a0 a1 a2 a3 in
  (forall t, In t themes -> change (name t) current = t) /\
  ((forall t, In t themes -> name t <> themeName) ->
   change themeName current = current) /\
  (change themeName current = current \/
   In (change themeName current) themes /\
   name (change themeName current) = themeName) /\
  In (fold_left (fun cur n => change n cur) choices (initialTheme a0 a1 a2 a3))
     themes.
Proof.
  cbv zeta.
  assert (Hfind : forall n cur,
            handleThemeChange a0 a1 a2 a3 n cur = cur \/
            In (handleThemeChange a0 a1 a2 a3 n cur) (mapThemes a0 a1 a2 a3) /\
            name (handleThemeChange a0 a1 a2 a3 n cur) = n).
  { intros n cur. unfold handleThemeChange.
    destruct (find _ _) as [t |] eqn:Hf; [right | now left].
    apply find_some in Hf. destruct Hf as [Hin Hn].
    split; [exact Hin | now apply String.eqb_eq]. }
  split; [| split; [| split]].
  - intros t Ht. unfold handleThemeChange.
    cbn in Ht. destruct Ht as [<- | [<- | [<- | [<- | []]]]]; reflexivity.
  - intros Hnone. unfold handleThemeChange.
    destruct (find _ _) as [t |] eqn:Hf; [| reflexivity].
    apply find_some in Hf. destruct Hf as [Hin Hn].
    apply String.eqb_eq in Hn. now elim (Hnone t Hin).
  - apply Hfind.
  - assert (Hinit : In (initialTheme a0 a1 a2 a3) (mapThemes a0 a1 a2 a3))
      by (now left).
    revert Hinit. generalize (initialTheme a0 a1 a2 a3).
    induction choices as [| n rest IH]; intros cur Hcur; [exact Hcur |].
    cbn [fold_left]. apply IH.
    destruct (Hfind n cur) as [-> | [Hin _]]; assumption.
Qed.

(** X16. With one or two stops the nearest-neighbour order is the input
    order, whatever the coordinates are: both modes send the same request. *)
Theorem two_stops_same_request (stops : list Coord) :
  stops <> [] -> length stops <= 2 ->
  nearestNeighbor stops = Value stops /\
  requested stops true = requested stops false.
Proof.
  intros Hne Hlen.
  assert (Hnn : nearestNeighbor stops = Value stops).
  { destruct stops as [| a [| b [| c rest]]]; [congruence | reflexivity | |
      simpl in Hlen; lia].
    unfold nearestNeighbor. cbn [length nn_loop].
    assert (Hidx : nearestIdx a [b] = 0).
    { unfold nearestIdx. cbn [forEach]. unfold nearer.
      now destruct (PrimFloat.ltb _ _). }
    rewrite Hidx. reflexivity. }
  split; [exact Hnn |]. unfold requested. now rewrite Hnn.
Qed.

Lemma two_stops_same_request_witness :
  nearestNeighbor (coordsOf [stopB; stopA]) = Value (coordsOf [stopB; stopA]).
Proof.
  apply (@two_stops_same_request (coordsOf [stopB; stopA]));
    [discriminate | cbn; lia].
Defined.
